(** * vue-code-parser: the [useCodeParser] composable

    A shallow embedding of [useCodeParser] (symbology detection, EAN check
    digits, the GS1 DataMatrix tokenizer and the result assembler), followed
    by the properties proved about it.

    Two versions of the composable are present in the sources.  They share
    the AI table, the reader-prefix markers, the detector and the EAN
    validator; they differ in the tokenizer:
    - module [V1] embeds [getParsedDataMatrix] (the version that is also the
      one shipped in [dist/index.js]);
    - module [V0] embeds [parseDataMatrix]. *)

From Stdlib Require Import ZArith NArith List String Ascii Bool Lia.
Import ListNotations.
Local Open Scope Z_scope.

(* ================================================================== *)
(** * JavaScript primitives used by the composable *)
(* ================================================================== *)

Module JS.

(** A JavaScript string is a sequence of UTF-16 code units. *)
Definition char := N.
Definition jsstring := list char.

(** An ASCII literal as a JavaScript string. *)
Definition lit (s : String.string) : jsstring :=
  List.map N_of_ascii (list_ascii_of_string s).
Arguments lit s%_string.

(** [s.length] *)
Definition length (s : jsstring) : Z := Z.of_nat (List.length s).

(** [a === b] on strings *)
Fixpoint eqb (a b : jsstring) : bool :=
  match a, b with
  | [], [] => true
  | x :: a', y :: b' => N.eqb x y && eqb a' b'
  | _, _ => false
  end.

(** A relative index clamped into [0, len], as [slice] resolves its
    arguments: a negative index counts from the end. *)
Definition rel_index (len i : Z) : Z :=
  if i <? 0 then Z.max (len + i) 0 else Z.min i len.

(** [s.slice(start, end)] *)
Definition slice (s : jsstring) (start end_ : Z) : jsstring :=
  let len := length s in
  let from := rel_index len start in
  let to := rel_index len end_ in
  firstn (Z.to_nat (to - from)) (skipn (Z.to_nat from) s).

(** [s.slice(start)]: the end defaults to [s.length]. *)
Definition slice_from (s : jsstring) (start : Z) : jsstring :=
  slice s start (length s).

(** [s.startsWith(p)] *)
Fixpoint startsWith (s p : jsstring) {struct p} : bool :=
  match p, s with
  | [], _ => true
  | y :: p', x :: s' => N.eqb x y && startsWith s' p'
  | _ :: _, [] => false
  end.

(** First index of the code unit [c] in [s], the head of [s] being at
    index [k]; [-1] when there is none. *)
Fixpoint index_from (c : char) (s : jsstring) (k : Z) : Z :=
  match s with
  | [] => -1
  | x :: r => if N.eqb x c then k else index_from c r (k + 1)
  end.

(** [s.indexOf(c, position)] for a one-character search string [c]. *)
Definition indexOf (s : jsstring) (c : char) (position : Z) : Z :=
  let p := Z.min (Z.max position 0) (length s) in
  index_from c (skipn (Z.to_nat p) s) p.

(** [arr.includes(x)] on an array of strings *)
Definition includes (arr : list jsstring) (x : jsstring) : bool :=
  existsb (fun y => eqb x y) arr.

(** [s[i]]: [None] stands for [undefined]. *)
Definition char_at (s : jsstring) (i : Z) : option char :=
  if i <? 0 then None else nth_error s (Z.to_nat i).

(** The code unit of ["+"], the separator. *)
Definition plus : char := 43%N.

(** [s.replace(/\+$/, "")]: drops one ["+"] when it is the last character. *)
Fixpoint strip_plus (s : jsstring) : jsstring :=
  match s with
  | [] => []
  | [x] => if N.eqb x plus then [] else [x]
  | x :: r => x :: strip_plus r
  end.

(** [s.replace(pat, rep)] with a string pattern: the first occurrence only. *)
Fixpoint replace (s pat rep : jsstring) : jsstring :=
  if startsWith s pat then rep ++ skipn (List.length pat) s
  else match s with
       | [] => []
       | x :: r => x :: replace r pat rep
       end.

(** White space and line terminators, the code units [trim] removes. *)
Definition is_whitespace (c : char) : bool :=
  let c := Z.of_N c in
  ((9 <=? c) && (c <=? 13)) || (c =? 32) || (c =? 160) || (c =? 5760)
  || ((8192 <=? c) && (c <=? 8202)) || (c =? 8232) || (c =? 8233)
  || (c =? 8239) || (c =? 8287) || (c =? 12288) || (c =? 65279).

Fixpoint trimStart (s : jsstring) : jsstring :=
  match s with
  | [] => []
  | x :: r => if is_whitespace x then trimStart r else s
  end.

(** [s.trim()] *)
Definition trim (s : jsstring) : jsstring :=
  rev (trimStart (rev (trimStart s))).

(** A JavaScript number.  Every number the composable computes is [NaN] or
    an integer far below 2^53, where double arithmetic is exact. *)
Inductive number := NaN | Num (z : Z).

Definition add (a b : number) : number :=
  match a, b with Num x, Num y => Num (x + y) | _, _ => NaN end.
Definition sub (a b : number) : number :=
  match a, b with Num x, Num y => Num (x - y) | _, _ => NaN end.
Definition mul (a b : number) : number :=
  match a, b with Num x, Num y => Num (x * y) | _, _ => NaN end.
(** [a % b]: the remainder has the sign of the dividend; [x % 0] is [NaN]. *)
Definition rem (a b : number) : number :=
  match a, b with
  | Num x, Num y => if y =? 0 then NaN else Num (Z.rem x y)
  | _, _ => NaN
  end.
(** [a === b] on numbers: [NaN] equals nothing. *)
Definition strict_eq (a b : number) : bool :=
  match a, b with Num x, Num y => x =? y | _, _ => false end.

Definition is_digit (c : char) : bool := (48 <=? c)%N && (c <=? 57)%N.

(** [parseInt(x)] where [x] is a one-character string or [undefined]: a
    decimal digit yields its value, anything else yields [NaN]. *)
Definition parseInt (x : option char) : number :=
  match x with
  | Some c => if is_digit c then Num (Z.of_N c - 48) else NaN
  | None => NaN
  end.

(** What a function call completes with: a returned value or a thrown
    [Error] carrying its message. *)
Inductive completion (A : Type) :=
| Return (a : A)
| Throw (message : jsstring).
Arguments Return {A} a.
Arguments Throw {A} message.

End JS.

Import JS (char, jsstring, number, NaN, Num, completion, Return, Throw, lit).

(* ================================================================== *)
(** * Data model *)
(* ================================================================== *)

(** [interface CodePart] of the AI table: [cp_length = None] is [null]. *)
Record CodePart := {
  cp_name : jsstring;
  cp_description : jsstring;
  cp_code : jsstring;
  cp_length : option Z
}.

(** [interface ParsedCodePart] *)
Record ParsedCodePart := {
  code : jsstring;
  value : jsstring;
  name : jsstring;
  description : jsstring
}.

(** [type ParsedResult = string | ParsedCodePart[] | null] *)
Inductive ParsedResult :=
| ResString (s : jsstring)
| ResParts (parts : list ParsedCodePart)
| ResNull.

Definition CODE_PARTS : list CodePart := [
  {| cp_name := lit "Global Trade Item Number"; cp_description := lit "GTIN";
     cp_code := lit "01"; cp_length := Some 16 |};
  {| cp_name := lit "Batch or lot number"; cp_description := lit "LOTE";
     cp_code := lit "10"; cp_length := None |};
  {| cp_name := lit "Production date (YYMMDD)";
     cp_description := lit "FECHA DE PRODUCCI" ++ [211%N] ++ lit "N";
     cp_code := lit "11"; cp_length := Some 8 |};
  {| cp_name := lit "Expiration date (YYMMDD)";
     cp_description := lit "FECHA DE CACUCIDAD";
     cp_code := lit "17"; cp_length := Some 8 |};
  {| cp_name := lit "Serial number"; cp_description := lit "SERIAL";
     cp_code := lit "21"; cp_length := None |};
  {| cp_name := lit "National product code"; cp_description := lit "NPC";
     cp_code := lit "712"; cp_length := None |}
].

Definition DATAMATRIX_FNC1 : list jsstring :=
  [lit "]C1"; lit "]e0"; lit "]d1"; lit "]d2"; lit "]q3"].
Definition QR_FNC1 : list jsstring :=
  [lit "]Q1"; lit "]Q2"; lit "]Q3"; lit "]Q4"].
Definition EAN_FNC1 : list jsstring := [lit "]E0"].

Definition Unknown : jsstring := lit "Unknown".

(* ================================================================== *)
(** * EAN validator and symbology detector *)
(* ================================================================== *)

(** One turn of the [for] loop of [calculateCheckDigit]:
    [sum += parseInt(code[i]) * (i % 2 === 0 ? 1 : 3)]. *)
Definition checkDigit_step (code_ : jsstring) (sum : number) (i : Z) : number :=
  JS.add sum
    (JS.mul (JS.parseInt (JS.char_at code_ i))
            (if JS.strict_eq (JS.rem (Num i) (Num 2)) (Num 0) then Num 1 else Num 3)).

(** The indices [0, 1, ..., n-1] a counting [for] loop visits. *)
Definition indices (n : nat) : list Z := List.map Z.of_nat (seq 0 n).

Definition calculateCheckDigit (code_ : jsstring) : number :=
  let sum := fold_left (checkDigit_step code_) (indices (List.length code_)) (Num 0) in
  JS.rem (JS.sub (Num 10) (JS.rem sum (Num 10))) (Num 10).

Definition isValidEan13 (code_ : jsstring) : bool :=
  if negb (JS.includes EAN_FNC1 (JS.slice code_ 0 3)) then false
  else
    let code_ := JS.slice_from code_ 3 in
    if negb (JS.length code_ =? 13) then false
    else JS.strict_eq (calculateCheckDigit (JS.slice code_ 0 12))
                      (JS.parseInt (JS.char_at code_ 12)).

Definition isValidEan14 (code_ : jsstring) : bool :=
  if negb (JS.includes EAN_FNC1 (JS.slice code_ 0 3)) then false
  else
    let code_ := JS.slice_from code_ 3 in
    if negb (JS.length code_ =? 14) then false
    else JS.strict_eq (calculateCheckDigit (JS.slice code_ 0 13))
                      (JS.parseInt (JS.char_at code_ 13)).

Definition isValidDataMatrix (code_ : jsstring) : bool :=
  JS.includes DATAMATRIX_FNC1 (JS.slice code_ 0 3).

(** [detectType]: [None] is the [undefined] of the fall-through. *)
Definition detectType (code_ : jsstring) : option jsstring :=
  if isValidEan13 code_ then Some (lit "EAN-13")
  else if isValidEan14 code_ then Some (lit "EAN-14")
  else if isValidDataMatrix code_ then Some (lit "DataMatrix")
  else if JS.startsWith code_ (lit "]Q") then Some (lit "QR")
  else None.

(* ================================================================== *)
(** * The tokenizer loop *)
(* ================================================================== *)

(** The variables of the tokenizer's [while] loop: the rest of the payload,
    the fields pushed so far and the iteration counter. *)
Record LoopState := {
  remaining : jsstring;
  codeParts : list ParsedCodePart;
  iteration : Z
}.

Definition maxIterations : Z := 1000.

(** The loop condition [nonempty && iteration++ < maxIterations]: the
    counter is compared and then incremented, and only when the left
    operand holds. *)
Definition loop_test (nonempty : jsstring -> bool) (st : LoopState)
  : bool * LoopState :=
  if nonempty (remaining st)
  then (iteration st <? maxIterations,
        {| remaining := remaining st; codeParts := codeParts st;
           iteration := iteration st + 1 |})
  else (false, st).

(** One turn of the loop: [body] reads the rest of the payload, yields the
    field that is pushed and the new rest. *)
Definition loop_turn (body : jsstring -> ParsedCodePart * jsstring)
  (st : LoopState) : LoopState :=
  let (part, rest) := body (remaining st) in
  {| remaining := rest; codeParts := codeParts st ++ [part];
     iteration := iteration st |}.

(** The [while] loop; [None] when [fuel] turns do not reach its exit. *)
Fixpoint while_loop (nonempty : jsstring -> bool)
  (body : jsstring -> ParsedCodePart * jsstring)
  (fuel : nat) (st : LoopState) : option LoopState :=
  match fuel with
  | O => None
  | S fuel' =>
      let (continue, st') := loop_test nonempty st in
      if continue then while_loop nonempty body fuel' (loop_turn body st')
      else Some st'
  end.

(** The check after the loop:
    [if (iteration >= maxIterations) throw new Error(...)]. *)
Definition limit_check (st : LoopState) : completion (list ParsedCodePart) :=
  if iteration st >=? maxIterations
  then Throw (lit "Maximum iteration limit reached.")
  else Return (codeParts st).

(** The loop tests its condition at most [maxIterations + 1] times. *)
Definition loop_fuel : nat := S (Z.to_nat maxIterations).

(** The loop without its counter: the fields a payload decomposes into. *)
Fixpoint fields_fuel (nonempty : jsstring -> bool)
  (body : jsstring -> ParsedCodePart * jsstring)
  (fuel : nat) (s : jsstring) : option (list ParsedCodePart) :=
  match fuel with
  | O => None
  | S fuel' =>
      if nonempty s
      then let (part, rest) := body s in
           option_map (cons part) (fields_fuel nonempty body fuel' rest)
      else Some []
  end.

(* ================================================================== *)
(** * [getParsedDataMatrix] and the rest of the composable *)
(* ================================================================== *)

Module V1.

(** The [for (const part of CODE_PARTS)] search with its [break]. *)
Definition find_part (string_ : jsstring) : option CodePart :=
  find (fun part => JS.startsWith string_ (cp_code part)) CODE_PARTS.

(** The local [length] of the branch of a matched table entry. *)
Definition known_span (string_ : jsstring) (currentPart : CodePart)
  (codeLength : Z) : Z :=
  match cp_length currentPart with
  | None =>
      let nextPlus := JS.indexOf string_ JS.plus codeLength in
      if nextPlus =? -1 then JS.length string_ else nextPlus + 1
  | Some l => codeLength + l - JS.length (cp_code currentPart)
  end.

(** The local [length] of the fallback branch. *)
Definition unknown_span (string_ : jsstring) : Z :=
  let nextPlus := JS.indexOf string_ JS.plus 2 in
  if nextPlus =? -1 then JS.length string_ else nextPlus + 1.

(** The span the loop body consumes. *)
Definition span (string_ : jsstring) : Z :=
  match find_part string_ with
  | Some currentPart =>
      known_span string_ currentPart (JS.length (cp_code currentPart))
  | None => unknown_span string_
  end.

(** The body of the [while] loop. *)
Definition loop_body (string_ : jsstring) : ParsedCodePart * jsstring :=
  match find_part string_ with
  | Some currentPart =>
      let codeLength := JS.length (cp_code currentPart) in
      let length := known_span string_ currentPart codeLength in
      let value := JS.strip_plus (JS.slice string_ codeLength length) in
      ({| code := cp_code currentPart; value := value;
          name := cp_name currentPart;
          description := cp_description currentPart |},
       JS.slice_from string_ length)
  | None =>
      let unknownCode := JS.slice string_ 0 2 in
      let length := unknown_span string_ in
      let value := JS.strip_plus (JS.slice string_ 2 length) in
      ({| code := unknownCode; value := value;
          name := Unknown; description := Unknown |},
       JS.slice_from string_ length)
  end.

(** [string.length > 0] *)
Definition nonempty (string_ : jsstring) : bool := JS.length string_ >? 0.

Definition getParsedDataMatrix (code_ : jsstring)
  : option (completion (list ParsedCodePart)) :=
  let start := {| remaining := JS.slice_from code_ 3; codeParts := [];
                  iteration := 0 |} in
  option_map limit_check (while_loop nonempty loop_body loop_fuel start).

(** The fields of a payload, the loop counter left out. *)
Definition fields (payload : jsstring) : option (list ParsedCodePart) :=
  fields_fuel nonempty loop_body (S (List.length payload)) payload.

Definition createCodeDataMatrix (parts : list ParsedCodePart)
  : list ParsedCodePart :=
  List.map (fun part =>
    let codePart := find (fun cp => JS.eqb (cp_code cp) (code part)) CODE_PARTS in
    {| code := code part; value := value part;
       name := match codePart with Some cp => cp_name cp | None => Unknown end;
       description :=
         match codePart with Some cp => cp_description cp | None => Unknown end
    |}) parts.

Definition parseEan13 (code_ : jsstring) : jsstring :=
  JS.replace code_ (lit "]E0") [].
Definition parseEan14 (code_ : jsstring) : jsstring :=
  JS.replace code_ (lit "]E0") [].

(** The reactive cells and the timer handle of one [useCodeParser()]:
    [bufferTimeout] tells whether a debounce timer is armed. *)
Record State := {
  parsedResult : ParsedResult;
  buffer : jsstring;
  bufferTimeout : bool;
  isQr : bool
}.

Definition set_isQr (st : State) (b : bool) : State :=
  {| parsedResult := parsedResult st; buffer := buffer st;
     bufferTimeout := bufferTimeout st; isQr := b |}.

(** [getParsedCode]: [isQr] is reset first, then the detected type selects
    the transform. *)
Definition getParsedCode (st : State) (code_ : jsstring)
  : option (State * completion ParsedResult) :=
  let st := set_isQr st false in
  match detectType code_ with
  | Some t =>
      if JS.eqb t (lit "EAN-13") then Some (st, Return (ResString (parseEan13 code_)))
      else if JS.eqb t (lit "EAN-14") then Some (st, Return (ResString (parseEan14 code_)))
      else if JS.eqb t (lit "DataMatrix") then
        match getParsedDataMatrix code_ with
        | Some (Return parts) => Some (st, Return (ResParts (createCodeDataMatrix parts)))
        | Some (Throw e) => Some (st, Throw e)
        | None => None
        end
      else if JS.eqb t (lit "QR") then
        Some (set_isQr st true, Return (ResString (JS.slice_from code_ 3)))
      else Some (st, Return (ResString code_))
  | None => Some (st, Return (ResString code_))
  end.

(** [handleParse] *)
Definition handleParse (st : State) : option (State * completion ParsedResult) :=
  match JS.trim (buffer st) with
  | [] => Some (st, Return ResNull)
  | _ :: _ =>
      match getParsedCode st (buffer st) with
      | Some (st', Return result) =>
          Some ({| parsedResult := result; buffer := buffer st';
                   bufferTimeout := bufferTimeout st'; isQr := isQr st' |},
                Return result)
      | other => other
      end
  end.

(** What a promise is rejected with: a string, or a caught [Error]. *)
Inductive reason :=
| ReasonString (s : jsstring)
| ReasonError (message : jsstring).

(** The promise of [handleInput] when the call returns: already rejected,
    or waiting for the debounce timer. *)
Inductive promise :=
| Rejected (r : reason)
| Pending.

(** How the timer callback settles the promise. *)
Inductive settled :=
| Resolve (result : ParsedResult)
| Reject (r : reason).

(** [handleInput], up to its return: an input whose [trim()] is the empty
    string rejects the promise at once and touches nothing; any other
    input is buffered and (re)arms the 300 ms timer. *)
Definition handleInput (st : State) (newInput : jsstring) : State * promise :=
  match JS.trim newInput with
  | [] => (st, Rejected (ReasonString (lit "Input inv" ++ [225%N] ++ lit "lido")))
  | _ :: _ =>
      ({| parsedResult := parsedResult st; buffer := newInput;
          bufferTimeout := true; isQr := isQr st |}, Pending)
  end.

(** [isParsedResultArray]: [Array.isArray(parsedResult.value)]. *)
Definition isParsedResultArray (st : State) : bool :=
  match parsedResult st with
  | ResParts _ => true
  | _ => false
  end.

(** The callback of the timer armed by [handleInput]. *)
Definition timer_callback (st : State) : option (State * settled) :=
  match handleParse st with
  | Some (st', Return result) => Some (st', Resolve result)
  | Some (st', Throw e) => Some (st', Reject (ReasonError e))
  | None => None
  end.


(** The cells of a fresh [useCodeParser()]. *)
Definition initial : State :=
  {| parsedResult := ResNull; buffer := []; bufferTimeout := false;
     isQr := false |}.

(** The states a composable goes through: calls of [handleInput] with any
    input, and runs of the timer callback once a timer has been armed. *)
Inductive reachable : State -> Prop :=
| reachable_initial : reachable initial
| reachable_handleInput (st : State) (newInput : jsstring) :
    reachable st -> reachable (fst (handleInput st newInput))
| reachable_timer (st st' : State) (outcome : settled) :
    reachable st -> bufferTimeout st = true ->
    timer_callback st = Some (st', outcome) -> reachable st'.

End V1.

(* ================================================================== *)
(** * [parseDataMatrix], the tokenizer of the other version *)
(* ================================================================== *)

Module V0.

(** The local [length] of the loop body: [match.length ?? indexOf] and
    the shared [-1] test for a matched entry, the separator scan otherwise. *)
Definition span (str : jsstring) : Z :=
  let match_ := find (fun p => JS.startsWith str (cp_code p)) CODE_PARTS in
  let codeLength :=
    match match_ with Some m => JS.length (cp_code m) | None => 2 end in
  match match_ with
  | Some m =>
      let length :=
        match cp_length m with
        | Some l => l
        | None => JS.indexOf str JS.plus codeLength
        end in
      if length =? -1 then JS.length str else length + 1
  | None =>
      let length := JS.indexOf str JS.plus 2 in
      if length =? -1 then JS.length str else length + 1
  end.

(** [x || "Unknown"] on a string that may be missing. *)
Definition or_Unknown (x : option jsstring) : jsstring :=
  match x with
  | Some (c :: r) => c :: r
  | _ => Unknown
  end.

(** The body of the [while] loop. *)
Definition loop_body (str : jsstring) : ParsedCodePart * jsstring :=
  let match_ := find (fun p => JS.startsWith str (cp_code p)) CODE_PARTS in
  let codeLength :=
    match match_ with Some m => JS.length (cp_code m) | None => 2 end in
  let length := span str in
  let raw := JS.slice str 0 length in
  let code_ := JS.slice raw 0 codeLength in
  let value := JS.strip_plus (JS.slice_from raw codeLength) in
  ({| code := code_; value := value;
      name := or_Unknown (option_map cp_name match_);
      description := or_Unknown (option_map cp_description match_) |},
   JS.slice_from str length).

(** [str.length] as a condition: any non-zero length. *)
Definition nonempty (str : jsstring) : bool := negb (JS.length str =? 0).

Definition parseDataMatrix (code_ : jsstring)
  : option (completion (list ParsedCodePart)) :=
  let start := {| remaining := JS.slice_from code_ 3; codeParts := [];
                  iteration := 0 |} in
  option_map limit_check (while_loop nonempty loop_body loop_fuel start).

Definition fields (payload : jsstring) : option (list ParsedCodePart) :=
  fields_fuel nonempty loop_body (S (List.length payload)) payload.

End V0.

(* ================================================================== *)
(** * Specification-side notions *)
(* ================================================================== *)

(** The value of a decimal digit character. *)
Definition digit_value (c : char) : Z := Z.of_N c - 48.

(** The character of a decimal digit [0 <= z <= 9], as string
    concatenation renders the number. *)
Definition digit_char (z : Z) : char := Z.to_N (z + 48).

(** Sum of digit times weight, the weights alternating [w], [w'], [w], ...
    from the first character on. *)
Fixpoint weighted_sum (w w' : Z) (d : jsstring) : Z :=
  match d with
  | [] => 0
  | c :: r => digit_value c * w + weighted_sum w' w r
  end.

(** The GS1 mod-10 check digit of a digit sequence: weights 1,3,1,3,...
    from index 0. *)
Definition check_digit (d : jsstring) : Z :=
  (10 - weighted_sum 1 3 d mod 10) mod 10.

Definition all_digits (d : jsstring) : Prop :=
  Forall (fun c => JS.is_digit c = true) d.

(** [x] begins with one of the markers [ms]. *)
Definition begins_with_one_of (ms : list jsstring) (x : jsstring) : Prop :=
  exists m rest, In m ms /\ x = m ++ rest.

Definition EAN_marker : jsstring := lit "]E0".

Definition whitespace_only (raw : jsstring) : Prop :=
  Forall (fun c => JS.is_whitespace c = true) raw.

(** The string [handleInput] rejects an invalid input with. *)
Definition invalid_input_message : jsstring :=
  lit "Input inv" ++ [225%N] ++ lit "lido".

(** The message of the error thrown after the tokenizer loop. *)
Definition limit_message : jsstring := lit "Maximum iteration limit reached.".

(** The example input of the README. *)
Definition readme_example : jsstring :=
  lit "]d20112345678901234101725010110ABC123+".

(** A payload of [n] serial-number fields with an empty value: ["21+"]
    [n] times. *)
Definition serial_fields (n : nat) : jsstring :=
  List.concat (repeat (lit "21+") n).



(** The README example input without the ["10"] that follows the GTIN. *)
Definition readme_example_repaired : jsstring :=
  lit "]d201123456789012341725010110ABC123+".

(** [payload] is put together again from the fields [fs]: each field
    contributes its code, then its value, then possibly one separator. *)
Inductive Reassembles : list ParsedCodePart -> jsstring -> Prop :=
| Reassembles_nil : Reassembles [] []
| Reassembles_field (f : ParsedCodePart) (fs : list ParsedCodePart)
    (sep rest : jsstring) :
    sep = [] \/ sep = [JS.plus] ->
    Reassembles fs rest ->
    Reassembles (f :: fs) (code f ++ value f ++ sep ++ rest).

(** [s] begins with the code of a fixed-length entry of the table. *)
Definition begins_with_fixed_code (s : jsstring) : Prop :=
  exists p r, In p CODE_PARTS /\ cp_length p <> None /\ s = cp_code p ++ r.

(** The codes of the table entries that have a fixed length. *)
Definition fixed_length_codes : list jsstring :=
  List.map cp_code
    (filter (fun p => match cp_length p with Some _ => true | None => false end)
            CODE_PARTS).

(* ================================================================== *)
(** * Facts about the JavaScript primitives *)
(* ================================================================== *)

Lemma js_length_nonneg (s : jsstring) : 0 <= JS.length s.
Proof. unfold JS.length. lia. Qed.

Lemma js_eqb_eq (a b : jsstring) : JS.eqb a b = true <-> a = b.
Proof.
  revert b. induction a as [|x a IH]; intros [|y b]; simpl; split;
    try easy.
  - intros H. apply andb_true_iff in H as [Hx Hab].
    apply N.eqb_eq in Hx. apply IH in Hab. now subst.
  - intros H. injection H as -> ->. apply andb_true_iff. split.
    + apply N.eqb_refl.
    + now apply IH.
Qed.

Lemma js_eqb_refl (a : jsstring) : JS.eqb a a = true.
Proof. now apply js_eqb_eq. Qed.

Lemma startsWith_prefix (s p : jsstring) :
  JS.startsWith s p = true <-> exists r, s = p ++ r.
Proof.
  revert s. induction p as [|y p IH]; intros s; simpl.
  - split; [intros _; now exists s | easy].
  - destruct s as [|x s].
    + split; [easy | intros [r Hr]; discriminate].
    + rewrite andb_true_iff, N.eqb_eq, IH. split.
      * intros [-> [r ->]]. now exists r.
      * intros [r Hr]. injection Hr as -> ->. split; [easy | now exists r].
Qed.

Lemma startsWith_app (p r : jsstring) : JS.startsWith (p ++ r) p = true.
Proof. apply startsWith_prefix. now exists r. Qed.

Lemma rel_index_nonneg (len i : Z) :
  0 <= len -> 0 <= i -> JS.rel_index len i = Z.min i len.
Proof.
  intros Hl Hi. unfold JS.rel_index.
  destruct (i <? 0) eqn:E; [apply Z.ltb_lt in E; lia | reflexivity].
Qed.

Lemma firstn_ge_all {A} (n : nat) (l : list A) :
  (List.length l <= n)%nat -> firstn n l = l.
Proof. intros H. now apply firstn_all2. Qed.

(** With non-negative arguments [slice] is [firstn] after [skipn]. *)
Lemma slice_nonneg (s : jsstring) (a b : Z) :
  0 <= a -> 0 <= b ->
  JS.slice s a b = firstn (Z.to_nat (b - a)) (skipn (Z.to_nat a) s).
Proof.
  intros Ha Hb. unfold JS.slice.
  pose proof (js_length_nonneg s) as Hl.
  rewrite !rel_index_nonneg by assumption.
  unfold JS.length in *.
  destruct (Z_le_gt_dec (Z.of_nat (List.length s)) a) as [Hge | Hlt].
  - rewrite (Z.min_r a) by lia.
    rewrite !skipn_all2 by lia. now rewrite !firstn_nil.
  - rewrite (Z.min_l a) by lia.
    destruct (Z_le_gt_dec b (Z.of_nat (List.length s))) as [Hb' | Hb'].
    + now rewrite (Z.min_l b) by lia.
    + rewrite (Z.min_r b) by lia.
      rewrite !firstn_ge_all; [reflexivity | |]; rewrite length_skipn; lia.
Qed.

Lemma slice_from_skipn (s : jsstring) (a : Z) :
  0 <= a -> JS.slice_from s a = skipn (Z.to_nat a) s.
Proof.
  intros Ha. unfold JS.slice_from.
  rewrite slice_nonneg by (try apply js_length_nonneg; assumption).
  apply firstn_ge_all. rewrite length_skipn. unfold JS.length. lia.
Qed.

Lemma slice_0_firstn (s : jsstring) (b : Z) :
  0 <= b -> JS.slice s 0 b = firstn (Z.to_nat b) s.
Proof.
  intros Hb. rewrite slice_nonneg by lia. now rewrite Z.sub_0_r.
Qed.

Lemma skipn_app_exact {A} (p r : list A) : skipn (List.length p) (p ++ r) = r.
Proof. induction p; simpl; auto. Qed.

Lemma firstn_app_exact {A} (p r : list A) : firstn (List.length p) (p ++ r) = p.
Proof. induction p; simpl; [|rewrite IHp]; auto. Qed.

Lemma index_from_none (c : char) (s : jsstring) (k : Z) :
  ~ In c s -> JS.index_from c s k = -1.
Proof.
  revert k. induction s as [|x s IH]; intros k Hn; simpl; [reflexivity|].
  destruct (N.eqb x c) eqn:E.
  - apply N.eqb_eq in E. subst. exfalso. apply Hn. now left.
  - apply IH. intros Hin. apply Hn. now right.
Qed.

Lemma index_from_found (c : char) (a b : jsstring) (k : Z) :
  ~ In c a ->
  JS.index_from c (a ++ c :: b) k = k + Z.of_nat (List.length a).
Proof.
  revert k. induction a as [|x a IH]; intros k Hn; simpl.
  - rewrite N.eqb_refl. lia.
  - destruct (N.eqb x c) eqn:E.
    + apply N.eqb_eq in E. subst. exfalso. apply Hn. now left.
    + rewrite IH by (intros Hin; apply Hn; now right). lia.
Qed.

(** [indexOf] finds nothing from [n] on when the separator does not occur
    there. *)
Lemma indexOf_none (s : jsstring) (c : char) (n : nat) :
  ~ In c (skipn n s) -> JS.indexOf s c (Z.of_nat n) = -1.
Proof.
  intros Hn. unfold JS.indexOf, JS.length.
  rewrite Z.max_l by lia.
  destruct (Nat.le_gt_cases (List.length s) n) as [Hge | Hlt].
  - rewrite Z.min_r by lia. rewrite Nat2Z.id.
    rewrite skipn_all. reflexivity.
  - rewrite Z.min_l by lia. rewrite Nat2Z.id.
    now apply index_from_none.
Qed.

(** [indexOf] returns the position of the first separator at or after
    [n]. *)
Lemma indexOf_found (pre post : jsstring) (c : char) (n : nat) :
  (n <= List.length pre)%nat -> ~ In c (skipn n pre) ->
  JS.indexOf (pre ++ c :: post) c (Z.of_nat n) = Z.of_nat (List.length pre).
Proof.
  intros Hle Hn. unfold JS.indexOf, JS.length.
  rewrite Z.max_l by lia. rewrite length_app. simpl.
  rewrite Z.min_l by lia. rewrite Nat2Z.id.
  rewrite skipn_app.
  replace (n - List.length pre)%nat with 0%nat by lia. simpl.
  rewrite index_from_found by assumption.
  rewrite length_skipn. lia.
Qed.

Lemma strip_plus_app_plus (s : jsstring) :
  JS.strip_plus (s ++ [JS.plus]) = s.
Proof.
  induction s as [|x s IH]; [reflexivity|].
  change ((x :: s) ++ [JS.plus]) with (x :: (s ++ [JS.plus])).
  destruct s as [|y s]; [reflexivity|].
  change (JS.strip_plus (x :: (y :: s) ++ [JS.plus]))
    with (x :: JS.strip_plus ((y :: s) ++ [JS.plus])).
  now rewrite IH.
Qed.

Lemma strip_plus_no_plus (s : jsstring) :
  ~ In JS.plus s -> JS.strip_plus s = s.
Proof.
  induction s as [|x s IH]; intros Hn; [reflexivity|].
  destruct s as [|y s].
  - simpl. destruct (N.eqb x JS.plus) eqn:E; [|reflexivity].
    apply N.eqb_eq in E. exfalso. apply Hn. now left.
  - change (JS.strip_plus (x :: y :: s)) with (x :: JS.strip_plus (y :: s)).
    rewrite IH; [reflexivity|]. intros Hin. apply Hn. now right.
Qed.

Lemma trimStart_all_whitespace (s : jsstring) :
  Forall (fun c => JS.is_whitespace c = true) s -> JS.trimStart s = [].
Proof.
  induction 1 as [|x s Hx _ IH]; simpl; [reflexivity|]. now rewrite Hx.
Qed.

Lemma trimStart_nil_inv (s : jsstring) :
  JS.trimStart s = [] -> Forall (fun c => JS.is_whitespace c = true) s.
Proof.
  induction s as [|x s IH]; simpl; [constructor|].
  destruct (JS.is_whitespace x) eqn:E; [|discriminate].
  intros H. constructor; auto.
Qed.

(** [trim] leaves the empty string exactly on whitespace-only input. *)
Lemma trim_empty_iff (s : jsstring) :
  JS.trim s = [] <-> Forall (fun c => JS.is_whitespace c = true) s.
Proof.
  unfold JS.trim. split.
  - intros H. destruct (JS.trimStart s) as [|x t] eqn:E.
    + now apply trimStart_nil_inv.
    + exfalso.
      assert (Hr : JS.trimStart (rev (x :: t)) = []).
      { apply (f_equal (@rev _)) in H. rewrite rev_involutive in H.
        exact H. }
      apply trimStart_nil_inv in Hr.
      apply Forall_rev in Hr. rewrite rev_involutive in Hr.
      inversion Hr as [|? ? Hx _]; subst.
      (* the first character kept by [trimStart] is no whitespace *)
      clear - E Hx. induction s as [|y s IH]; simpl in E; [discriminate|].
      destruct (JS.is_whitespace y) eqn:Ey; [auto|].
      injection E as -> ->. congruence.
  - intros H. now rewrite (trimStart_all_whitespace s H).
Qed.

(* ================================================================== *)
(** * The check digit *)
(* ================================================================== *)

Lemma add_Num_assoc (a : number) (x y : Z) :
  JS.add (JS.add a (Num x)) (Num y) = JS.add a (Num (x + y)).
Proof. destruct a; simpl; [reflexivity | f_equal; lia]. Qed.

Lemma fold_checkDigit_NaN (code_ : jsstring) (l : list Z) :
  fold_left (checkDigit_step code_) l NaN = NaN.
Proof. induction l; simpl; auto. Qed.

Lemma char_at_app (pre : jsstring) (c : char) (r : jsstring) :
  JS.char_at (pre ++ c :: r) (Z.of_nat (List.length pre)) = Some c.
Proof.
  unfold JS.char_at.
  destruct (Z.of_nat (List.length pre) <? 0) eqn:E;
    [apply Z.ltb_lt in E; lia|].
  rewrite Nat2Z.id, nth_error_app2 by lia.
  now rewrite Nat.sub_diag.
Qed.

(** The weight the loop gives index [k]: 1 when [k % 2 === 0], else 3. *)
Lemma loop_weight (k : nat) :
  (if JS.strict_eq (JS.rem (Num (Z.of_nat k)) (Num 2)) (Num 0)
   then Num 1 else Num 3)
  = Num (if Nat.even k then 1 else 3).
Proof.
  simpl. rewrite Z.rem_mod_nonneg by lia.
  destruct (Nat.even k) eqn:E.
  - apply Nat.even_spec in E as [m ->].
    replace (Z.of_nat (2 * m) mod 2) with 0; [reflexivity|].
    rewrite Nat2Z.inj_mul, Z.mul_comm. symmetry. apply Z.mod_mul. lia.
  - assert (Ho : Nat.odd k = true) by (unfold Nat.odd; now rewrite E).
    apply Nat.odd_spec in Ho as [m ->].
    replace (Z.of_nat (2 * m + 1) mod 2) with 1; [reflexivity|].
    rewrite Nat2Z.inj_add, Nat2Z.inj_mul, Z.add_comm, Z.mul_comm.
    rewrite Z.mod_add by lia. reflexivity.
Qed.

(** The loop from index [|pre|] on, over the characters [d]: the
    accumulator gains the weighted sum of [d], or becomes [NaN] as soon as
    a character is not a digit. *)
Lemma fold_checkDigit (d pre : jsstring) (a : number) :
  fold_left (checkDigit_step (pre ++ d))
    (List.map Z.of_nat (seq (List.length pre) (List.length d))) a
  = if forallb JS.is_digit d
    then JS.add a (Num (if Nat.even (List.length pre)
                        then weighted_sum 1 3 d else weighted_sum 3 1 d))
    else NaN.
Proof.
  revert pre a. induction d as [|c r IH]; intros pre a.
  - simpl. destruct a; simpl; [reflexivity|].
    destruct (Nat.even (List.length pre)); f_equal; lia.
  - cbn [List.length seq List.map fold_left forallb].
    unfold checkDigit_step at 2.
    rewrite char_at_app, loop_weight.
    replace (pre ++ c :: r) with ((pre ++ [c]) ++ r)
      by (now rewrite <- app_assoc).
    replace (S (List.length pre)) with (List.length (pre ++ [c]))
      by (rewrite length_app; simpl; lia).
    rewrite IH. unfold JS.parseInt.
    destruct (JS.is_digit c) eqn:Ec; cbn [andb].
    + destruct (forallb JS.is_digit r); [|reflexivity].
      rewrite length_app. cbn [List.length].
      replace (List.length pre + 1)%nat with (S (List.length pre)) by lia.
      rewrite Nat.even_succ, <- Nat.negb_even.
      fold (digit_value c).
      destruct (Nat.even (List.length pre)); cbn [negb JS.mul weighted_sum];
        apply add_Num_assoc.
    + replace (JS.add a (JS.mul NaN _)) with NaN
        by (destruct a; reflexivity).
      destruct (forallb JS.is_digit r); reflexivity.
Qed.

Lemma digit_value_range (c : char) :
  JS.is_digit c = true -> 0 <= digit_value c <= 9.
Proof.
  unfold JS.is_digit, digit_value. intros H.
  apply andb_true_iff in H as [H1 H2].
  apply N.leb_le in H1. apply N.leb_le in H2. lia.
Qed.

Lemma weighted_sum_nonneg (d : jsstring) (w w' : Z) :
  0 <= w -> 0 <= w' -> all_digits d -> 0 <= weighted_sum w w' d.
Proof.
  intros Hw Hw' Hd. revert w w' Hw Hw'.
  induction Hd as [|c r Hc _ IH]; intros w w' Hw Hw'; simpl; [lia|].
  pose proof (digit_value_range c Hc). specialize (IH w' w Hw' Hw). nia.
Qed.

Lemma forallb_all_digits (d : jsstring) :
  forallb JS.is_digit d = true <-> all_digits d.
Proof. unfold all_digits. now rewrite forallb_forall, Forall_forall. Qed.

Lemma check_digit_range (d : jsstring) : 0 <= check_digit d <= 9.
Proof. unfold check_digit. pose proof (Z.mod_pos_bound (10 - weighted_sum 1 3 d mod 10) 10). lia. Qed.

(** [calculateCheckDigit] on any string: the check digit when every
    character is a decimal digit, [NaN] otherwise. *)
Lemma calculateCheckDigit_eq (d : jsstring) :
  calculateCheckDigit d
  = if forallb JS.is_digit d then Num (check_digit d) else NaN.
Proof.
  unfold calculateCheckDigit, indices.
  pose proof (fold_checkDigit d [] (Num 0)) as H.
  cbn [List.length app Nat.even] in H. rewrite H.
  destruct (forallb JS.is_digit d) eqn:E; [|reflexivity].
  apply forallb_all_digits in E.
  pose proof (weighted_sum_nonneg d 1 3 ltac:(lia) ltac:(lia) E) as Hs.
  cbn [JS.add JS.rem JS.sub Z.eqb]. unfold check_digit.
  rewrite Z.add_0_l.
  rewrite (Z.rem_mod_nonneg (weighted_sum 1 3 d) 10) by lia.
  pose proof (Z.mod_pos_bound (weighted_sum 1 3 d) 10 ltac:(lia)).
  rewrite Z.rem_mod_nonneg by lia. reflexivity.
Qed.

(** C4.  For every sequence [d] of decimal digit characters,
    [calculateCheckDigit d] is the number [(10 - (S mod 10)) mod 10], where
    [S] is the sum of digit times weight with the weights 1,3,1,3,...
    from index 0; that number lies in [0, 9]; and a sum that is a multiple
    of 10 gives the check digit 0. *)
Theorem calculateCheckDigit_gs1_mod10 (d : jsstring) :
  all_digits d ->
  calculateCheckDigit d = Num ((10 - weighted_sum 1 3 d mod 10) mod 10)
  /\ 0 <= (10 - weighted_sum 1 3 d mod 10) mod 10 <= 9
  /\ (weighted_sum 1 3 d mod 10 = 0 -> calculateCheckDigit d = Num 0).
Proof.
  intros Hd. rewrite calculateCheckDigit_eq.
  apply forallb_all_digits in Hd. rewrite Hd.
  fold (check_digit d). split; [reflexivity|]. split.
  - apply check_digit_range.
  - intros H0. unfold check_digit. now rewrite H0.
Qed.

Lemma calculateCheckDigit_gs1_mod10_witness :
  all_digits (lit "400638133393")
  /\ calculateCheckDigit (lit "400638133393") = Num 1.
Proof.
  assert (Hd : all_digits (lit "400638133393")).
  { apply forallb_all_digits. reflexivity. }
  split; [exact Hd|].
  destruct (calculateCheckDigit_gs1_mod10 (lit "400638133393") Hd) as [H _].
  rewrite H. reflexivity.
Defined.

(* ================================================================== *)
(** * The EAN-13 validator *)
(* ================================================================== *)

(** The marker test of the validators: the first three characters are
    ["]E0"]. *)
Lemma ean_marker_test (x : jsstring) :
  JS.includes EAN_FNC1 (JS.slice x 0 3) = true
  <-> exists rest, x = EAN_marker ++ rest.
Proof.
  unfold JS.includes, EAN_FNC1. cbn [existsb]. rewrite orb_false_r.
  rewrite js_eqb_eq, slice_0_firstn by lia.
  change (Z.to_nat 3) with 3%nat. split.
  - intros H. exists (skipn 3 x).
    rewrite <- (firstn_skipn 3 x) at 1. now rewrite H.
  - intros [rest ->]. reflexivity.
Qed.

(** The validator on an input that carries the marker. *)
Lemma isValidEan13_marked (rest : jsstring) :
  isValidEan13 (EAN_marker ++ rest)
  = (Z.of_nat (List.length rest) =? 13)
    && JS.strict_eq (calculateCheckDigit (firstn 12 rest))
                    (JS.parseInt (nth_error rest 12)).
Proof.
  unfold isValidEan13.
  assert (Hm : JS.includes EAN_FNC1 (JS.slice (EAN_marker ++ rest) 0 3) = true).
  { apply ean_marker_test. now exists rest. }
  rewrite Hm. cbn [negb].
  rewrite slice_from_skipn by lia. change (Z.to_nat 3) with 3%nat.
  change (skipn 3 (EAN_marker ++ rest)) with rest.
  unfold JS.length.
  destruct (Z.of_nat (List.length rest) =? 13); cbn [negb andb];
    [|reflexivity].
  rewrite slice_0_firstn by lia. reflexivity.
Qed.

Lemma isValidEan13_unmarked (x : jsstring) :
  (forall rest, x <> EAN_marker ++ rest) -> isValidEan13 x = false.
Proof.
  intros Hx. unfold isValidEan13.
  destruct (JS.includes EAN_FNC1 (JS.slice x 0 3)) eqn:E; [|reflexivity].
  apply ean_marker_test in E as [rest ->]. now destruct (Hx rest).
Qed.

(** A list of 13 characters is its first 12 followed by its last. *)
Lemma split_last_13 (rest : jsstring) :
  List.length rest = 13%nat ->
  exists c, rest = firstn 12 rest ++ [c] /\ nth_error rest 12 = Some c.
Proof.
  intros H.
  do 13 (destruct rest as [|? rest]; [discriminate|]).
  destruct rest; [|discriminate]. eexists. split; reflexivity.
Qed.

Lemma payload_12_1 (d12 : jsstring) (c : char) :
  List.length d12 = 12%nat ->
  (Z.of_nat (List.length (d12 ++ [c])) =? 13) = true
  /\ firstn 12 (d12 ++ [c]) = d12
  /\ nth_error (d12 ++ [c]) 12 = Some c.
Proof.
  intros H. split; [|split].
  - rewrite length_app, H. reflexivity.
  - rewrite <- H. apply firstn_app_exact.
  - rewrite nth_error_app2 by lia. now rewrite H.
Qed.

Lemma digit_char_value (c : char) :
  JS.is_digit c = true -> digit_char (digit_value c) = c.
Proof.
  intros H. pose proof (digit_value_range c H).
  unfold digit_char, digit_value in *. lia.
Qed.

Lemma digit_char_is_digit (z : Z) :
  0 <= z <= 9 ->
  JS.is_digit (digit_char z) = true /\ digit_value (digit_char z) = z.
Proof.
  intros H. unfold JS.is_digit, digit_char, digit_value. split.
  - apply andb_true_iff. split; apply N.leb_le; lia.
  - lia.
Qed.

(** The validator on marker + 12 characters + 1 character. *)
Lemma isValidEan13_payload (d12 : jsstring) (c : char) :
  List.length d12 = 12%nat ->
  isValidEan13 (EAN_marker ++ d12 ++ [c])
  = forallb JS.is_digit d12 && JS.is_digit c
    && (check_digit d12 =? digit_value c).
Proof.
  intros H. rewrite isValidEan13_marked.
  destruct (payload_12_1 d12 c H) as (-> & -> & ->). cbn [andb].
  rewrite calculateCheckDigit_eq. unfold JS.parseInt.
  destruct (forallb JS.is_digit d12), (JS.is_digit c); reflexivity.
Qed.

(** C3.  [isValidEan13 x] is [true] exactly when [x] is the marker ["]E0"]
    followed by 13 decimal digits, the last of which is the check digit of
    the first 12.  In particular it is [true] on marker + [d12] + check
    digit for every 12-digit [d12], and [false] (a value, the function is
    total) without the marker, with a payload of another length, with
    another last character than the check digit, or with a non-digit in
    the check-digit position. *)
Theorem isValidEan13_characterization :
  (forall x,
     isValidEan13 x = true <->
     exists d12 c,
       x = EAN_marker ++ d12 ++ [c] /\ List.length d12 = 12%nat
       /\ all_digits d12 /\ JS.is_digit c = true
       /\ digit_value c = check_digit d12)
  /\ (forall d12,
        List.length d12 = 12%nat -> all_digits d12 ->
        isValidEan13 (EAN_marker ++ d12 ++ [digit_char (check_digit d12)])
        = true)
  /\ (forall x,
        (forall rest, x <> EAN_marker ++ rest) -> isValidEan13 x = false)
  /\ (forall rest,
        List.length rest <> 13%nat ->
        isValidEan13 (EAN_marker ++ rest) = false)
  /\ (forall d12 c,
        List.length d12 = 12%nat -> c <> digit_char (check_digit d12) ->
        isValidEan13 (EAN_marker ++ d12 ++ [c]) = false)
  /\ (forall d12 c,
        List.length d12 = 12%nat -> JS.is_digit c = false ->
        isValidEan13 (EAN_marker ++ d12 ++ [c]) = false).
Proof.
  split; [|split; [|split; [|split; [|split]]]].
  - intros x. split.
    + intros Hv.
      destruct (JS.includes EAN_FNC1 (JS.slice x 0 3)) eqn:Em.
      2:{ unfold isValidEan13 in Hv. rewrite Em in Hv. discriminate. }
      apply ean_marker_test in Em as [rest ->].
      pose proof Hv as Hv'. rewrite isValidEan13_marked in Hv'.
      apply andb_true_iff in Hv' as [Hlen _].
      apply Z.eqb_eq in Hlen.
      destruct (split_last_13 rest ltac:(lia)) as (c & Hrest & _).
      assert (H12 : List.length (firstn 12 rest) = 12%nat)
        by (rewrite length_firstn; lia).
      rewrite Hrest, isValidEan13_payload in Hv by exact H12.
      apply andb_true_iff in Hv as [Hv Hcd].
      apply andb_true_iff in Hv as [Hd Hc].
      exists (firstn 12 rest), c. repeat split; auto.
      * now rewrite <- Hrest.
      * now apply forallb_all_digits.
      * apply Z.eqb_eq in Hcd. now symmetry.
    + intros (d12 & c & -> & Hlen & Hd & Hc & Hcd).
      rewrite isValidEan13_payload by exact Hlen.
      apply forallb_all_digits in Hd. rewrite Hd, Hc, Hcd.
      apply Z.eqb_refl.
  - intros d12 Hlen Hd. rewrite isValidEan13_payload by exact Hlen.
    destruct (digit_char_is_digit _ (check_digit_range d12)) as [Hc Hv].
    apply forallb_all_digits in Hd. rewrite Hd, Hc, Hv.
    apply Z.eqb_refl.
  - exact isValidEan13_unmarked.
  - intros rest Hlen. rewrite isValidEan13_marked.
    destruct (Z.of_nat (List.length rest) =? 13) eqn:E; [|reflexivity].
    apply Z.eqb_eq in E. lia.
  - intros d12 c Hlen Hc. rewrite isValidEan13_payload by exact Hlen.
    destruct (forallb JS.is_digit d12); [|reflexivity].
    destruct (JS.is_digit c) eqn:Ec; [|reflexivity]. cbn [andb].
    apply Z.eqb_neq. intros Heq. apply Hc.
    rewrite Heq. symmetry. now apply digit_char_value.
  - intros d12 c Hlen Hc. rewrite isValidEan13_payload by exact Hlen.
    rewrite Hc. now rewrite andb_false_r.
Qed.

(** The validator on a real EAN-13 and on the same code with its last
    digit changed. *)
Lemma isValidEan13_characterization_witness :
  isValidEan13 (lit "]E04006381333931") = true
  /\ isValidEan13 (lit "]E04006381333932") = false.
Proof.
  destruct isValidEan13_characterization as (_ & Hok & _ & _ & Hbad & _).
  split.
  - apply (Hok (lit "400638133393")).
    + reflexivity.
    + apply forallb_all_digits. reflexivity.
  - apply (Hbad (lit "400638133393") 50%N).
    + reflexivity.
    + discriminate.
Defined.

(* ================================================================== *)
(** * The symbology detector *)
(* ================================================================== *)

(** The DataMatrix test, a membership of the first three characters, is a
    prefix test: every marker has three characters. *)
Lemma isValidDataMatrix_prefix (x : jsstring) :
  isValidDataMatrix x = true <-> begins_with_one_of DATAMATRIX_FNC1 x.
Proof.
  unfold isValidDataMatrix, JS.includes, begins_with_one_of.
  rewrite existsb_exists, slice_0_firstn by lia.
  change (Z.to_nat 3) with 3%nat. split.
  - intros (m & Hin & Heq). apply js_eqb_eq in Heq.
    exists m, (skipn 3 x). split; [exact Hin|].
    rewrite <- Heq. symmetry. apply firstn_skipn.
  - intros (m & rest & Hin & ->). exists m. split; [exact Hin|].
    apply js_eqb_eq.
    assert (Hlen : List.length m = 3%nat).
    { repeat (destruct Hin as [<- | Hin]; [reflexivity|]). destruct Hin. }
    rewrite <- Hlen. apply firstn_app_exact.
Qed.

(** C7.  [detectType] tries, in this order, the EAN-13 validator, the
    EAN-14 validator, the DataMatrix markers and the QR prefix ["]Q"]; the
    first test that holds decides the result, whatever the later ones say,
    and the result is [undefined] ([None]) when none holds.  The marker
    tests are prefix comparisons with literal strings. *)
Theorem detectType_first_match (x : jsstring) :
  (isValidEan13 x = true -> detectType x = Some (lit "EAN-13"))
  /\ (isValidEan13 x = false -> isValidEan14 x = true ->
      detectType x = Some (lit "EAN-14"))
  /\ (isValidEan13 x = false -> isValidEan14 x = false ->
      begins_with_one_of DATAMATRIX_FNC1 x ->
      detectType x = Some (lit "DataMatrix"))
  /\ (isValidEan13 x = false -> isValidEan14 x = false ->
      ~ begins_with_one_of DATAMATRIX_FNC1 x ->
      (exists rest, x = lit "]Q" ++ rest) ->
      detectType x = Some (lit "QR"))
  /\ (isValidEan13 x = false -> isValidEan14 x = false ->
      ~ begins_with_one_of DATAMATRIX_FNC1 x ->
      ~ (exists rest, x = lit "]Q" ++ rest) ->
      detectType x = None).
Proof.
  unfold detectType.
  destruct (isValidEan13 x); [repeat split; intros; congruence|].
  destruct (isValidEan14 x); [repeat split; intros; congruence|].
  pose proof (isValidDataMatrix_prefix x) as Hdm.
  destruct (isValidDataMatrix x).
  - repeat split; intros; try congruence;
      match goal with H : ~ _ |- _ => destruct H; now apply Hdm end.
  - assert (Hn : ~ begins_with_one_of DATAMATRIX_FNC1 x).
    { intros H. apply Hdm in H. discriminate. }
    pose proof (startsWith_prefix x (lit "]Q")) as Hq.
    destruct (JS.startsWith x (lit "]Q")).
    + repeat split; intros; try congruence; try contradiction.
      match goal with H : ~ (exists _, _) |- _ => destruct H end.
      now apply Hq.
    + repeat split; intros; try congruence; try contradiction.
      match goal with H : exists _, _ |- _ => apply Hq in H end.
      discriminate.
Qed.

(** A DataMatrix payload and a QR payload through the detector. *)
Lemma detectType_first_match_witness :
  detectType (lit "]d21099") = Some (lit "DataMatrix")
  /\ detectType (lit "]Q1hello") = Some (lit "QR").
Proof.
  split.
  - apply (detectType_first_match (lit "]d21099")).
    + reflexivity.
    + reflexivity.
    + exists (lit "]d2"), (lit "1099"). split; [|reflexivity].
      right. right. right. now left.
  - apply (detectType_first_match (lit "]Q1hello")).
    + reflexivity.
    + reflexivity.
    + intros (m & rest & Hin & Heq).
      repeat (destruct Hin as [<- | Hin]; [discriminate|]). destruct Hin.
    + now exists (lit "1hello").
Defined.

(* ================================================================== *)
(** * Empty and whitespace-only input *)
(* ================================================================== *)

(** [handleInput] rejects at once on blank input only: any other input is
    buffered and waits for the timer. *)
Lemma handleInput_pending (st : V1.State) (raw : jsstring) :
  ~ whitespace_only raw ->
  V1.handleInput st raw
  = ({| V1.parsedResult := V1.parsedResult st; V1.buffer := raw;
        V1.bufferTimeout := true; V1.isQr := V1.isQr st |}, V1.Pending).
Proof.
  intros H. unfold V1.handleInput.
  destruct (JS.trim raw) eqn:E; [|reflexivity].
  apply trim_empty_iff in E. contradiction.
Qed.

(** C8.  On an input that is empty or made of whitespace only,
    [handleInput] rejects the promise it returns, with the invalid-input
    message, in whatever state the composable is; nothing is buffered,
    no timer is armed and no result is produced. *)
Theorem handleInput_rejects_blank (st : V1.State) (raw : jsstring) :
  whitespace_only raw ->
  V1.handleInput st raw
  = (st, V1.Rejected (V1.ReasonString invalid_input_message)).
Proof.
  intros H. unfold V1.handleInput.
  apply trim_empty_iff in H. now rewrite H.
Qed.

Lemma handleInput_rejects_blank_witness :
  let st := {| V1.parsedResult := ResNull; V1.buffer := [];
               V1.bufferTimeout := false; V1.isQr := false |} in
  V1.handleInput st [] = (st, V1.Rejected (V1.ReasonString invalid_input_message))
  /\ V1.handleInput st (lit "   ")
     = (st, V1.Rejected (V1.ReasonString invalid_input_message)).
Proof.
  split.
  - apply handleInput_rejects_blank. constructor.
  - apply handleInput_rejects_blank. repeat constructor.
Defined.

(* ================================================================== *)
(** * The tokenizer loop against its iteration cap *)
(* ================================================================== *)

Section Loop.

Variable nonempty : jsstring -> bool.
Variable body : jsstring -> ParsedCodePart * jsstring.

Hypothesis nonempty_spec : forall s, nonempty s = true <-> s <> [].
Hypothesis body_shrinks :
  forall s, s <> [] -> (List.length (snd (body s)) < List.length s)%nat.

Lemma nonempty_nil : nonempty [] = false.
Proof.
  destruct (nonempty []) eqn:E; [|reflexivity].
  apply nonempty_spec in E. now destruct E.
Qed.

Lemma nonempty_cons (c : char) (s : jsstring) : nonempty (c :: s) = true.
Proof. now apply nonempty_spec. Qed.


(** The loop without its counter ends on every payload: each turn shortens
    the rest, so one turn per character is enough. *)
Lemma fields_fuel_total (f : nat) (s : jsstring) :
  (List.length s < f)%nat ->
  exists fs, fields_fuel nonempty body f s = Some fs.
Proof.
  revert s. induction f as [|f IH]; intros s Hlt; [lia|]. simpl.
  destruct s as [|c s]; [rewrite nonempty_nil; now exists []|].
  rewrite nonempty_cons.
  pose proof (body_shrinks (c :: s) ltac:(discriminate)) as Hs.
  destruct (body (c :: s)) as [part rest]. simpl in Hs.
  destruct (IH rest) as [fs Hfs]; [simpl in Hlt; lia|].
  rewrite Hfs. now exists (part :: fs).
Qed.

(** The capped loop started at counter [i] on a payload of fields [fs]:
    it throws when [i + |fs|] reaches the cap and returns every field
    otherwise. *)
Lemma while_loop_run (f0 : nat) (s : jsstring) (fs : list ParsedCodePart) :
  fields_fuel nonempty body f0 s = Some fs ->
  forall (fuel : nat) (acc : list ParsedCodePart) (i : Z),
    0 <= i <= maxIterations -> maxIterations - i < Z.of_nat fuel ->
    option_map limit_check
      (while_loop nonempty body fuel
         {| remaining := s; codeParts := acc; iteration := i |})
    = Some (if i + Z.of_nat (List.length fs) >=? maxIterations
            then Throw limit_message else Return (acc ++ fs)).
Proof.
  revert s fs. induction f0 as [|f0 IH]; intros s fs Hf fuel acc i Hi Hfuel;
    [discriminate|].
  destruct fuel as [|fuel]; [lia|].
  simpl in Hf. cbn [while_loop]. unfold loop_test. cbn [remaining].
  destruct (nonempty s).
  - destruct (body s) as [part rest] eqn:Eb.
    destruct (fields_fuel nonempty body f0 rest) as [fs'|] eqn:E;
      [|discriminate].
    injection Hf as <-. cbn [iteration codeParts].
    destruct (i <? maxIterations) eqn:Ei.
    + apply Z.ltb_lt in Ei.
      unfold loop_turn. cbn [remaining codeParts iteration]. rewrite Eb.
      rewrite (IH rest fs' E) by lia.
      cbn [List.length]. rewrite <- app_assoc. cbn [app].
      replace (i + 1 + Z.of_nat (List.length fs'))
        with (i + Z.of_nat (S (List.length fs'))) by lia.
      reflexivity.
    + apply Z.ltb_ge in Ei. cbn [option_map]. unfold limit_check.
      cbn [iteration codeParts List.length].
      replace (i + 1 >=? maxIterations) with true
        by (symmetry; apply Z.geb_le; lia).
      replace (i + Z.of_nat (S (List.length fs')) >=? maxIterations) with true
        by (symmetry; apply Z.geb_le; lia).
      reflexivity.
  - injection Hf as <-. cbn [option_map]. unfold limit_check.
    cbn [iteration codeParts List.length]. rewrite app_nil_r.
    now rewrite Z.add_0_r.
Qed.

(** A tokenizer built on the loop throws exactly on the payloads of at
    least [maxIterations] fields and returns the fields of every other
    payload. *)
Lemma tokenizer_fields (code_ : jsstring) (fs : list ParsedCodePart) :
  fields_fuel nonempty body (S (List.length (JS.slice_from code_ 3)))
    (JS.slice_from code_ 3) = Some fs ->
  option_map limit_check
    (while_loop nonempty body loop_fuel
       {| remaining := JS.slice_from code_ 3; codeParts := [];
          iteration := 0 |})
  = Some (if Z.of_nat (List.length fs) >=? maxIterations
          then Throw limit_message else Return fs).
Proof.
  intros H.
  rewrite (while_loop_run _ _ _ H); [reflexivity | |];
    unfold maxIterations, loop_fuel; simpl; lia.
Qed.

Lemma tokenizer_total (code_ : jsstring) :
  exists r,
    option_map limit_check
      (while_loop nonempty body loop_fuel
         {| remaining := JS.slice_from code_ 3; codeParts := [];
            iteration := 0 |})
    = Some r.
Proof.
  destruct (fields_fuel_total (S (List.length (JS.slice_from code_ 3)))
              (JS.slice_from code_ 3) ltac:(lia)) as [fs H].
  rewrite (tokenizer_fields _ _ H). eauto.
Qed.

End Loop.

(* ================================================================== *)
(** * The AI table and the loop bodies *)
(* ================================================================== *)

Lemma index_from_range (c : char) (s : jsstring) (k : Z) :
  JS.index_from c s k = -1 \/ k <= JS.index_from c s k.
Proof.
  revert k. induction s as [|x s IH]; intros k; simpl; [now left|].
  destruct (N.eqb x c); [right; lia|].
  destruct (IH (k + 1)) as [H | H]; [now left | right; lia].
Qed.

Lemma indexOf_range (s : jsstring) (c : char) (pos : Z) :
  JS.indexOf s c pos = -1 \/ 0 <= JS.indexOf s c pos.
Proof.
  unfold JS.indexOf. pose proof (js_length_nonneg s).
  match goal with |- context [JS.index_from c ?l ?k] =>
    destruct (index_from_range c l k) as [H' | H'] end;
    [now left | right; lia].
Qed.

(** The separator scan always yields a span of at least one character on
    a non-empty rest. *)
Lemma scan_span_positive (s : jsstring) (pos : Z) :
  s <> [] ->
  1 <= (if JS.indexOf s JS.plus pos =? -1 then JS.length s
        else JS.indexOf s JS.plus pos + 1).
Proof.
  intros Hs. destruct (JS.indexOf s JS.plus pos =? -1) eqn:E.
  - unfold JS.length. destruct s; [contradiction | simpl; lia].
  - apply Z.eqb_neq in E.
    destruct (indexOf_range s JS.plus pos); [contradiction | lia].
Qed.

(** Every fixed length of the table is positive. *)
Lemma table_fixed_length (p : CodePart) (l : Z) :
  In p CODE_PARTS -> cp_length p = Some l -> l = 16 \/ l = 8.
Proof.
  intros Hin Hl.
  repeat (destruct Hin as [<- | Hin];
          [simpl in Hl; first [discriminate | injection Hl as <-; auto]|]).
  destruct Hin.
Qed.

Lemma slice_from_shorter (s : jsstring) (n : Z) :
  s <> [] -> 1 <= n ->
  (List.length (JS.slice_from s n) < List.length s)%nat.
Proof.
  intros Hs Hn. rewrite slice_from_skipn by lia. rewrite length_skipn.
  destruct s; [contradiction | cbn [List.length]; lia].
Qed.

Lemma V1_find_part_In (s : jsstring) (p : CodePart) :
  V1.find_part s = Some p ->
  In p CODE_PARTS /\ JS.startsWith s (cp_code p) = true.
Proof. intros H. now apply find_some in H. Qed.

(** No code of the table is a prefix of another one, so the entry found
    in table order is the only entry whose code is a prefix. *)
Lemma V1_find_part_unique (s : jsstring) (p : CodePart) :
  In p CODE_PARTS -> (exists r, s = cp_code p ++ r) ->
  V1.find_part s = Some p.
Proof.
  intros Hin [r ->].
  repeat (destruct Hin as [<- | Hin]; [reflexivity|]). destruct Hin.
Qed.


Lemma V1_nonempty_spec (s : jsstring) : V1.nonempty s = true <-> s <> [].
Proof.
  unfold V1.nonempty, JS.length. destruct s; simpl; split; try easy.
Qed.

Lemma V0_nonempty_spec (s : jsstring) : V0.nonempty s = true <-> s <> [].
Proof.
  unfold V0.nonempty, JS.length. destruct s; simpl; split; try easy.
Qed.

Lemma V1_body_rest (s : jsstring) :
  snd (V1.loop_body s) = JS.slice_from s (V1.span s).
Proof.
  unfold V1.loop_body, V1.span. now destruct (V1.find_part s).
Qed.

Lemma V0_body_rest (s : jsstring) :
  snd (V0.loop_body s) = JS.slice_from s (V0.span s).
Proof. reflexivity. Qed.

(** The span computed by [getParsedDataMatrix] is positive in each of its
    three branches. *)
Lemma V1_span_positive (s : jsstring) : s <> [] -> 1 <= V1.span s.
Proof.
  intros Hs. unfold V1.span.
  destruct (V1.find_part s) as [p|] eqn:E.
  - unfold V1.known_span. destruct (cp_length p) as [l|] eqn:El.
    + apply V1_find_part_In in E as [Hin _].
      destruct (table_fixed_length p l Hin El); lia.
    + now apply scan_span_positive.
  - now apply scan_span_positive.
Qed.

(** The span computed by [parseDataMatrix] is positive in each of its
    three branches. *)
Lemma V0_span_positive (s : jsstring) : s <> [] -> 1 <= V0.span s.
Proof.
  intros Hs. unfold V0.span.
  destruct (find _ CODE_PARTS) as [p|] eqn:E.
  - destruct (cp_length p) as [l|] eqn:El.
    + apply find_some in E as [Hin _].
      destruct (table_fixed_length p l Hin El) as [-> | ->]; simpl; lia.
    + now apply scan_span_positive.
  - now apply scan_span_positive.
Qed.

Lemma V1_body_shrinks (s : jsstring) :
  s <> [] -> (List.length (snd (V1.loop_body s)) < List.length s)%nat.
Proof.
  intros Hs. rewrite V1_body_rest.
  apply slice_from_shorter; auto using V1_span_positive.
Qed.

Lemma V0_body_shrinks (s : jsstring) :
  s <> [] -> (List.length (snd (V0.loop_body s)) < List.length s)%nat.
Proof.
  intros Hs. rewrite V0_body_rest.
  apply slice_from_shorter; auto using V0_span_positive.
Qed.

(** [getParsedDataMatrix] in terms of the fields of its payload. *)
Lemma V1_getParsedDataMatrix_fields (code_ : jsstring) (fs : list ParsedCodePart) :
  V1.fields (JS.slice_from code_ 3) = Some fs ->
  V1.getParsedDataMatrix code_
  = Some (if Z.of_nat (List.length fs) >=? maxIterations
          then Throw limit_message else Return fs).
Proof. apply tokenizer_fields. Qed.

(** [parseDataMatrix] in terms of the fields of its payload. *)
Lemma V0_parseDataMatrix_fields (code_ : jsstring) (fs : list ParsedCodePart) :
  V0.fields (JS.slice_from code_ 3) = Some fs ->
  V0.parseDataMatrix code_
  = Some (if Z.of_nat (List.length fs) >=? maxIterations
          then Throw limit_message else Return fs).
Proof. apply tokenizer_fields. Qed.

(** C9.  In both tokenizers the span computed by the loop body is at least
    one character on a non-empty rest, whichever branch computes it, and
    the new rest, the old one without that span, is strictly shorter.  So
    the loop without its counter consumes every payload in finitely many
    turns ([fields] is defined everywhere), the tokenizer completes on
    every input, and it throws the iteration-limit error only on payloads
    that decompose into at least 1000 fields. *)
Theorem tokenizer_progress_and_termination :
  (forall s, s <> [] ->
     1 <= V1.span s
     /\ snd (V1.loop_body s) = JS.slice_from s (V1.span s)
     /\ (List.length (snd (V1.loop_body s)) < List.length s)%nat)
  /\ (forall s, s <> [] ->
        1 <= V0.span s
        /\ snd (V0.loop_body s) = JS.slice_from s (V0.span s)
        /\ (List.length (snd (V0.loop_body s)) < List.length s)%nat)
  /\ (forall s, exists fs, V1.fields s = Some fs)
  /\ (forall s, exists fs, V0.fields s = Some fs)
  /\ (forall code_, exists r, V1.getParsedDataMatrix code_ = Some r)
  /\ (forall code_, exists r, V0.parseDataMatrix code_ = Some r)
  /\ (forall code_ fs message,
        V1.fields (JS.slice_from code_ 3) = Some fs ->
        V1.getParsedDataMatrix code_ = Some (Throw message) ->
        (1000 <= List.length fs)%nat)
  /\ (forall code_ fs message,
        V0.fields (JS.slice_from code_ 3) = Some fs ->
        V0.parseDataMatrix code_ = Some (Throw message) ->
        (1000 <= List.length fs)%nat).
Proof.
  repeat apply conj.
  - intros s Hs.
    auto using V1_span_positive, V1_body_rest, V1_body_shrinks.
  - intros s Hs.
    auto using V0_span_positive, V0_body_rest, V0_body_shrinks.
  - intros s. apply fields_fuel_total; [| |lia].
    + exact V1_nonempty_spec.
    + exact V1_body_shrinks.
  - intros s. apply fields_fuel_total; [| |lia].
    + exact V0_nonempty_spec.
    + exact V0_body_shrinks.
  - intros code_.
    apply (tokenizer_total _ _ V1_nonempty_spec V1_body_shrinks).
  - intros code_.
    apply (tokenizer_total _ _ V0_nonempty_spec V0_body_shrinks).
  - intros code_ fs message Hf Ht.
    rewrite (V1_getParsedDataMatrix_fields _ _ Hf) in Ht.
    destruct (Z.of_nat (List.length fs) >=? maxIterations) eqn:E;
      [|discriminate].
    apply Z.geb_le in E. unfold maxIterations in E. lia.
  - intros code_ fs message Hf Ht.
    rewrite (V0_parseDataMatrix_fields _ _ Hf) in Ht.
    destruct (Z.of_nat (List.length fs) >=? maxIterations) eqn:E;
      [|discriminate].
    apply Z.geb_le in E. unfold maxIterations in E. lia.
Qed.

(** One turn of each loop on a payload that begins with a GTIN; both
    tokenizers return on that two-field payload, none throws. *)
Lemma tokenizer_progress_and_termination_witness :
  (1 <= V1.span (lit "0112345678901234+21X")
   /\ 1 <= V0.span (lit "0112345678901234+21X"))
  /\ (forall message,
        V1.getParsedDataMatrix (lit "]d20112345678901234+21X")
        <> Some (Throw message))
  /\ (forall message,
        V0.parseDataMatrix (lit "]d20112345678901234+21X")
        <> Some (Throw message)).
Proof.
  destruct tokenizer_progress_and_termination
    as (H1 & H0 & _ & _ & _ & _ & Hcap1 & Hcap0).
  split; [split|split].
  - apply H1. discriminate.
  - apply H0. discriminate.
  - intros message Ht.
    destruct (V1.fields (JS.slice_from (lit "]d20112345678901234+21X") 3))
      as [fs|] eqn:E; [|discriminate].
    pose proof (Hcap1 _ _ message E Ht) as Hle.
    vm_compute in E. injection E as <-. simpl in Hle. lia.
  - intros message Ht.
    destruct (V0.fields (JS.slice_from (lit "]d20112345678901234+21X") 3))
      as [fs|] eqn:E; [|discriminate].
    pose proof (Hcap0 _ _ message E Ht) as Hle.
    vm_compute in E. injection E as <-. simpl in Hle. lia.
Defined.

(* ================================================================== *)
(** * The branches of the loop body of [getParsedDataMatrix] *)
(* ================================================================== *)

Lemma skipn_marker (marker s : jsstring) :
  List.length marker = 3%nat -> JS.slice_from (marker ++ s) 3 = s.
Proof.
  intros H. rewrite slice_from_skipn by lia.
  change (Z.to_nat 3) with 3%nat. rewrite <- H. apply skipn_app_exact.
Qed.

(** A payload that one turn of the loop consumes whole is returned as its
    single field. *)
Lemma V1_single_field (marker s : jsstring) :
  List.length marker = 3%nat -> s <> [] -> snd (V1.loop_body s) = [] ->
  V1.getParsedDataMatrix (marker ++ s)
  = Some (Return [fst (V1.loop_body s)]).
Proof.
  intros Hm Hs Hrest.
  rewrite (V1_getParsedDataMatrix_fields _ [fst (V1.loop_body s)]);
    [reflexivity|].
  rewrite skipn_marker by exact Hm. unfold V1.fields.
  destruct s as [|c s]; [contradiction|].
  cbn [List.length fields_fuel].
  replace (V1.nonempty (c :: s)) with true
    by (symmetry; now apply V1_nonempty_spec).
  destruct (V1.loop_body (c :: s)) as [part rest]. simpl in Hrest. subst rest.
  reflexivity.
Qed.



(* ================================================================== *)
(** * The tokenizers on concrete payloads *)
(* ================================================================== *)

(** C1.  The input of the README through the detector and through
    [getParsedCode] (tokenizer, then result assembler).  The detector
    answers ["DataMatrix"], and the parse returns exactly two fields, in
    order: code ["01"] with value ["12345678901234"] and the GTIN
    metadata, and code ["10"] with value ["1725010110ABC123"] and the lot
    metadata.  After the GTIN the payload goes on with ["10"]: the table
    search finds the variable-length lot entry, whose value runs to the
    ["+"] that ends the input. *)
Theorem readme_example_parse (st : V1.State) :
  detectType readme_example = Some (lit "DataMatrix")
  /\ V1.getParsedCode st readme_example
     = Some (V1.set_isQr st false,
             Return (ResParts [
               {| code := lit "01"; value := lit "12345678901234";
                  name := lit "Global Trade Item Number";
                  description := lit "GTIN" |};
               {| code := lit "10"; value := lit "1725010110ABC123";
                  name := lit "Batch or lot number";
                  description := lit "LOTE" |} ])).
Proof. split; reflexivity. Qed.

(** The parse of the README input is not the three-field sequence
    ["01"], ["17"], ["10"] of the README, whatever metadata the fields
    carry. *)
Lemma readme_example_not_three_fields :
  ~ exists st' n1 d1 n2 d2 n3 d3,
      V1.getParsedCode V1.initial readme_example
      = Some (st',
              Return (ResParts [
                {| code := lit "01"; value := lit "12345678901234";
                   name := n1; description := d1 |};
                {| code := lit "17"; value := lit "250101";
                   name := n2; description := d2 |};
                {| code := lit "10"; value := lit "ABC123";
                   name := n3; description := d3 |} ])).
Proof.
  intros (st' & n1 & d1 & n2 & d2 & n3 & d3 & H).
  vm_compute in H. discriminate.
Qed.

(** Those three fields are the parse of the input without the ["10"]
    that follows the GTIN. *)
Lemma readme_example_repaired_parse (st : V1.State) :
  V1.getParsedCode st readme_example_repaired
  = Some (V1.set_isQr st false,
          Return (ResParts [
            {| code := lit "01"; value := lit "12345678901234";
               name := lit "Global Trade Item Number";
               description := lit "GTIN" |};
            {| code := lit "17"; value := lit "250101";
               name := lit "Expiration date (YYMMDD)";
               description := lit "FECHA DE CACUCIDAD" |};
            {| code := lit "10"; value := lit "ABC123";
               name := lit "Batch or lot number";
               description := lit "LOTE" |} ])).
Proof. reflexivity. Qed.

(** C2.  A payload of 1000 fields ["21+"]: the loop without its counter
    consumes it whole in 1000 turns, and [getParsedDataMatrix] throws the
    iteration-limit error on it; with 999 fields it returns them. *)
Theorem iteration_limit_at_1000_fields :
  option_map (@List.length ParsedCodePart) (V1.fields (serial_fields 1000))
  = Some 1000%nat
  /\ V1.getParsedDataMatrix (lit "]d2" ++ serial_fields 1000)
     = Some (Throw limit_message)
  /\ option_map (@List.length ParsedCodePart) (V1.fields (serial_fields 999))
     = Some 999%nat
  /\ V1.getParsedDataMatrix (lit "]d2" ++ serial_fields 999)
     = option_map Return (V1.fields (serial_fields 999)).
Proof. split; [|split; [|split]]; vm_compute; reflexivity. Qed.

(** C10.  A GTIN followed by an expiration date through both tokenizers:
    [getParsedDataMatrix] consumes 16 characters for the GTIN and finds
    the date; [parseDataMatrix] consumes 17, so that its GTIN value has 15
    characters and the date is read as an unknown code ["72"]. *)
Theorem tokenizers_differ_on_fixed_length :
  V1.getParsedDataMatrix (lit "]d2011234567890123417250101")
  = Some (Return [
      {| code := lit "01"; value := lit "12345678901234";
         name := lit "Global Trade Item Number"; description := lit "GTIN" |};
      {| code := lit "17"; value := lit "250101";
         name := lit "Expiration date (YYMMDD)";
         description := lit "FECHA DE CACUCIDAD" |} ])
  /\ V0.parseDataMatrix (lit "]d2011234567890123417250101")
     = Some (Return [
         {| code := lit "01"; value := lit "123456789012341";
            name := lit "Global Trade Item Number"; description := lit "GTIN" |};
         {| code := lit "72"; value := lit "50101";
            name := lit "Unknown"; description := lit "Unknown" |} ]).
Proof. split; vm_compute; reflexivity. Qed.

(* ================================================================== *)
(** * More on the validators and the detector *)
(* ================================================================== *)

Lemma split_last (n : nat) (rest : jsstring) :
  List.length rest = S n ->
  exists c, rest = firstn n rest ++ [c] /\ nth_error rest n = Some c.
Proof.
  intros H.
  destruct (skipn n rest) as [|c t] eqn:E.
  - apply (f_equal (@List.length _)) in E. rewrite length_skipn in E.
    simpl in E. lia.
  - assert (Ht : t = []).
    { apply (f_equal (@List.length _)) in E. rewrite length_skipn in E.
      simpl in E. destruct t; [reflexivity | simpl in E; lia]. }
    subst t. exists c.
    assert (Hr : rest = firstn n rest ++ [c])
      by (rewrite <- E; symmetry; apply firstn_skipn).
    split; [exact Hr|].
    rewrite Hr at 1. rewrite nth_error_app2 by (rewrite length_firstn; lia).
    rewrite length_firstn.
    replace (n - Nat.min n (List.length rest))%nat with 0%nat by lia.
    reflexivity.
Qed.

(** The EAN-14 validator on an input that carries the marker. *)
Lemma isValidEan14_marked (rest : jsstring) :
  isValidEan14 (EAN_marker ++ rest)
  = (Z.of_nat (List.length rest) =? 14)
    && JS.strict_eq (calculateCheckDigit (firstn 13 rest))
                    (JS.parseInt (nth_error rest 13)).
Proof.
  unfold isValidEan14.
  assert (Hm : JS.includes EAN_FNC1 (JS.slice (EAN_marker ++ rest) 0 3) = true).
  { apply ean_marker_test. now exists rest. }
  rewrite Hm. cbn [negb].
  rewrite slice_from_skipn by lia. change (Z.to_nat 3) with 3%nat.
  change (skipn 3 (EAN_marker ++ rest)) with rest.
  unfold JS.length.
  destruct (Z.of_nat (List.length rest) =? 14); cbn [negb andb];
    [|reflexivity].
  rewrite slice_0_firstn by lia. reflexivity.
Qed.

Lemma isValidEan14_payload (d13 : jsstring) (c : char) :
  List.length d13 = 13%nat ->
  isValidEan14 (EAN_marker ++ d13 ++ [c])
  = forallb JS.is_digit d13 && JS.is_digit c
    && (check_digit d13 =? digit_value c).
Proof.
  intros H. rewrite isValidEan14_marked.
  rewrite length_app, H. cbn [List.length Nat.add Z.of_nat Z.eqb andb].
  change (Z.of_nat (13 + 1) =? 14) with true. cbn [andb].
  replace (firstn 13 (d13 ++ [c])) with d13
    by (rewrite <- H; symmetry; apply firstn_app_exact).
  rewrite nth_error_app2 by lia. rewrite H. cbn [Nat.sub nth_error].
  rewrite calculateCheckDigit_eq. unfold JS.parseInt.
  destruct (forallb JS.is_digit d13), (JS.is_digit c); reflexivity.
Qed.

(** X1.  [isValidEan14 x] is [true] exactly when [x] is the marker ["]E0"]
    followed by 14 decimal digits, the last of which is the check digit
    [calculateCheckDigit] gives for the first 13 (weight 1 on the leftmost
    digit). *)
Theorem isValidEan14_characterization (x : jsstring) :
  isValidEan14 x = true <->
  exists d13 c,
    x = EAN_marker ++ d13 ++ [c] /\ List.length d13 = 13%nat
    /\ all_digits d13 /\ JS.is_digit c = true
    /\ digit_value c = check_digit d13.
Proof.
  split.
  - intros Hv.
    destruct (JS.includes EAN_FNC1 (JS.slice x 0 3)) eqn:Em.
    2:{ unfold isValidEan14 in Hv. rewrite Em in Hv. discriminate. }
    apply ean_marker_test in Em as [rest ->].
    pose proof Hv as Hv'. rewrite isValidEan14_marked in Hv'.
    apply andb_true_iff in Hv' as [Hlen _]. apply Z.eqb_eq in Hlen.
    destruct (split_last 13 rest ltac:(lia)) as (c & Hrest & _).
    assert (H13 : List.length (firstn 13 rest) = 13%nat)
      by (rewrite length_firstn; lia).
    rewrite Hrest, isValidEan14_payload in Hv by exact H13.
    apply andb_true_iff in Hv as [Hv Hcd].
    apply andb_true_iff in Hv as [Hd Hc].
    exists (firstn 13 rest), c. repeat split; auto.
    + now rewrite <- Hrest.
    + now apply forallb_all_digits.
    + apply Z.eqb_eq in Hcd. now symmetry.
  - intros (d13 & c & -> & Hlen & Hd & Hc & Hcd).
    rewrite isValidEan14_payload by exact Hlen.
    apply forallb_all_digits in Hd. rewrite Hd, Hc, Hcd.
    apply Z.eqb_refl.
Qed.

(** The tests of the detector exclude one another. *)
Lemma ean13_not_ean14 (x : jsstring) :
  isValidEan13 x = true -> isValidEan14 x = false.
Proof.
  intros H.
  destruct (JS.includes EAN_FNC1 (JS.slice x 0 3)) eqn:Em.
  2:{ unfold isValidEan13 in H. rewrite Em in H. discriminate. }
  apply ean_marker_test in Em as [rest ->].
  rewrite isValidEan13_marked in H. rewrite isValidEan14_marked.
  apply andb_true_iff in H as [Hlen _]. apply Z.eqb_eq in Hlen.
  replace (Z.of_nat (List.length rest) =? 14) with false
    by (symmetry; apply Z.eqb_neq; lia).
  reflexivity.
Qed.

Lemma ean_marked (x : jsstring) :
  isValidEan13 x = true \/ isValidEan14 x = true ->
  exists rest, x = EAN_marker ++ rest.
Proof.
  intros H. apply ean_marker_test.
  destruct (JS.includes EAN_FNC1 (JS.slice x 0 3)) eqn:Em; [reflexivity|].
  unfold isValidEan13, isValidEan14 in H. rewrite Em in H.
  destruct H; discriminate.
Qed.

Lemma ean_marker_not_others (rest : jsstring) :
  isValidDataMatrix (EAN_marker ++ rest) = false
  /\ JS.startsWith (EAN_marker ++ rest) (lit "]Q") = false.
Proof.
  split; [|reflexivity].
  unfold isValidDataMatrix. rewrite slice_0_firstn by lia. reflexivity.
Qed.

Lemma datamatrix_not_qr (x : jsstring) :
  isValidDataMatrix x = true -> JS.startsWith x (lit "]Q") = false.
Proof.
  intros H. apply isValidDataMatrix_prefix in H as (m & rest & Hin & ->).
  repeat (destruct Hin as [<- | Hin]; [reflexivity|]). destruct Hin.
Qed.

(** Each result of the detector against its own test. *)
Lemma detectType_iff (x : jsstring) :
  (detectType x = Some (lit "EAN-13") <-> isValidEan13 x = true)
  /\ (detectType x = Some (lit "EAN-14") <-> isValidEan14 x = true)
  /\ (detectType x = Some (lit "DataMatrix")
      <-> begins_with_one_of DATAMATRIX_FNC1 x)
  /\ (detectType x = Some (lit "QR") <-> exists rest, x = lit "]Q" ++ rest)
  /\ (detectType x = None
      <-> isValidEan13 x = false /\ isValidEan14 x = false
          /\ ~ begins_with_one_of DATAMATRIX_FNC1 x
          /\ ~ exists rest, x = lit "]Q" ++ rest).
Proof.
  rewrite <- isValidDataMatrix_prefix, <- startsWith_prefix.
  unfold detectType.
  destruct (isValidEan13 x) eqn:E13.
  - pose proof (ean13_not_ean14 x E13) as E14.
    destruct (ean_marked x (or_introl E13)) as [rest ->].
    destruct (ean_marker_not_others rest) as [Hdm Hq].
    rewrite E14, Hdm, Hq.
    repeat split; intros; try congruence; try discriminate;
      try (now destruct H).
  - destruct (isValidEan14 x) eqn:E14.
    + destruct (ean_marked x (or_intror E14)) as [rest ->].
      destruct (ean_marker_not_others rest) as [Hdm Hq].
      rewrite Hdm, Hq.
      repeat split; intros; try congruence; try discriminate;
        try (now destruct H).
    + destruct (isValidDataMatrix x) eqn:Edm.
      * rewrite (datamatrix_not_qr x Edm).
        repeat split; intros; try congruence; try discriminate.
        destruct H as (_ & _ & H & _). now destruct H.
      * destruct (JS.startsWith x (lit "]Q")) eqn:Eq.
        -- repeat split; intros; try congruence; try discriminate.
           destruct H as (_ & _ & _ & H). now destruct H.
        -- repeat split; intros; try congruence; try discriminate.
Qed.

(** X2.  The four tests of [detectType] exclude one another, so each
    result is decided by its own test alone, whatever the order: the
    result is ["EAN-13"] exactly on valid EAN-13 input, ["EAN-14"] exactly
    on valid EAN-14 input, ["DataMatrix"] exactly when the input begins
    with a DataMatrix marker, ["QR"] exactly when it begins with ["]Q"],
    and [undefined] exactly when none of the four holds. *)
Theorem detectType_exclusive (x : jsstring) :
  (detectType x = Some (lit "EAN-13") <-> isValidEan13 x = true)
  /\ (detectType x = Some (lit "EAN-14") <-> isValidEan14 x = true)
  /\ (detectType x = Some (lit "DataMatrix")
      <-> begins_with_one_of DATAMATRIX_FNC1 x)
  /\ (detectType x = Some (lit "QR") <-> exists rest, x = lit "]Q" ++ rest)
  /\ (detectType x = None
      <-> isValidEan13 x = false /\ isValidEan14 x = false
          /\ ~ begins_with_one_of DATAMATRIX_FNC1 x
          /\ ~ exists rest, x = lit "]Q" ++ rest).
Proof. exact (detectType_iff x). Qed.

(** X3.  [calculateCheckDigit] yields [NaN] exactly when some character of
    its argument is not a decimal digit; otherwise it yields an integer
    from 0 to 9.  The empty string gives 0. *)
Theorem calculateCheckDigit_NaN_iff (d : jsstring) :
  (calculateCheckDigit d = NaN <-> ~ all_digits d)
  /\ (all_digits d ->
      exists z, calculateCheckDigit d = Num z /\ 0 <= z <= 9)
  /\ calculateCheckDigit [] = Num 0.
Proof.
  rewrite calculateCheckDigit_eq.
  pose proof (forallb_all_digits d) as Hd.
  destruct (forallb JS.is_digit d).
  - split; [|split].
    + split; [discriminate|]. intros H. destruct H. now apply Hd.
    + intros _. exists (check_digit d). split; [reflexivity|].
      apply check_digit_range.
    + reflexivity.
  - split; [|split].
    + split; [|reflexivity]. intros _ H. apply Hd in H. discriminate.
    + intros H. apply Hd in H. discriminate.
    + reflexivity.
Qed.

(* ================================================================== *)
(** * Single-digit errors *)
(* ================================================================== *)

Lemma weighted_sum_app (a b : jsstring) (w w' : Z) :
  weighted_sum w w' (a ++ b)
  = weighted_sum w w' a
    + (if Nat.even (List.length a) then weighted_sum w w' b
       else weighted_sum w' w b).
Proof.
  revert w w'. induction a as [|x a IH]; intros w w'.
  - simpl. lia.
  - cbn [app weighted_sum List.length]. rewrite IH.
    rewrite Nat.even_succ, <- Nat.negb_even.
    destruct (Nat.even (List.length a)); cbn [negb]; lia.
Qed.

(** Replacing one character changes the weighted sum by the difference of
    the two digit values, times the weight of the position (1 or 3). *)
Lemma weighted_sum_replace (pre post : jsstring) (c c' : char) :
  exists w, (w = 1 \/ w = 3)
    /\ weighted_sum 1 3 (pre ++ c :: post)
       - weighted_sum 1 3 (pre ++ c' :: post)
       = (digit_value c - digit_value c') * w.
Proof.
  rewrite !weighted_sum_app.
  destruct (Nat.even (List.length pre)); cbn [weighted_sum].
  - exists 1. split; [now left | lia].
  - exists 3. split; [now right | lia].
Qed.

Lemma digit_value_inj (c c' : char) :
  digit_value c = digit_value c' -> c = c'.
Proof. unfold digit_value. lia. Qed.

(** Two digit strings that differ in one position have different check
    digits. *)
Lemma check_digit_replace (pre post : jsstring) (c c' : char) :
  JS.is_digit c = true -> JS.is_digit c' = true -> c' <> c ->
  check_digit (pre ++ c :: post) <> check_digit (pre ++ c' :: post).
Proof.
  intros Hc Hc' Hne Heq.
  apply digit_value_range in Hc. apply digit_value_range in Hc'.
  assert (Hd : digit_value c <> digit_value c')
    by (intros H; apply Hne; symmetry; now apply digit_value_inj).
  destruct (weighted_sum_replace pre post c c') as (w & Hw & Hdiff).
  unfold check_digit in Heq.
  set (S1 := weighted_sum 1 3 (pre ++ c :: post)) in *.
  set (S2 := weighted_sum 1 3 (pre ++ c' :: post)) in *.
  pose proof (Z.mod_pos_bound S1 10 ltac:(lia)) as B1.
  pose proof (Z.mod_pos_bound S2 10 ltac:(lia)) as B2.
  assert (Hm : S1 mod 10 = S2 mod 10).
  { destruct (Z.eq_dec (S1 mod 10) 0) as [Z1 | N1];
      destruct (Z.eq_dec (S2 mod 10) 0) as [Z2 | N2].
    - congruence.
    - rewrite Z1 in Heq. change ((10 - 0) mod 10) with 0 in Heq.
      rewrite (Z.mod_small (10 - S2 mod 10)) in Heq by lia. lia.
    - rewrite Z2 in Heq. change ((10 - 0) mod 10) with 0 in Heq.
      rewrite (Z.mod_small (10 - S1 mod 10)) in Heq by lia. lia.
    - rewrite (Z.mod_small (10 - S1 mod 10)),
        (Z.mod_small (10 - S2 mod 10)) in Heq by lia. lia. }
  pose proof (Z.div_mod S1 10 ltac:(lia)) as D1.
  pose proof (Z.div_mod S2 10 ltac:(lia)) as D2.
  destruct Hw as [-> | ->]; lia.
Qed.

Lemma forallb_digit_middle (pre post : jsstring) (c : char) :
  forallb JS.is_digit (pre ++ c :: post) = true -> JS.is_digit c = true.
Proof.
  rewrite forallb_app. cbn [forallb]. intros H.
  apply andb_true_iff in H as [_ H]. now apply andb_true_iff in H as [H _].
Qed.

Lemma forallb_digit_replace (pre post : jsstring) (c c' : char) :
  forallb JS.is_digit (pre ++ c :: post) = true ->
  forallb JS.is_digit (pre ++ c' :: post) = JS.is_digit c'.
Proof.
  rewrite !forallb_app. cbn [forallb]. intros H.
  apply andb_true_iff in H as [-> H]. apply andb_true_iff in H as [_ ->].
  now rewrite andb_true_r.
Qed.

(** X4.  Replacing any single character of a valid EAN-13 input after the
    marker (a payload digit or the check digit) by a different character
    makes [isValidEan13] answer [false]: the validator detects every
    single-digit error. *)
Theorem isValidEan13_detects_single_error (pre post : jsstring) (c c' : char) :
  isValidEan13 (EAN_marker ++ pre ++ c :: post) = true ->
  c' <> c ->
  isValidEan13 (EAN_marker ++ pre ++ c' :: post) = false.
Proof.
  intros Hv Hne.
  pose proof Hv as Hlen. rewrite isValidEan13_marked in Hlen.
  apply andb_true_iff in Hlen as [Hlen _]. apply Z.eqb_eq in Hlen.
  rewrite length_app in Hlen. cbn [List.length] in Hlen.
  destruct post as [|p post].
  - (* the replaced character is the check digit *)
    assert (H12 : List.length pre = 12%nat) by (simpl in Hlen; lia).
    rewrite isValidEan13_payload in Hv |- * by exact H12.
    apply andb_true_iff in Hv as [Hv Hcd].
    apply andb_true_iff in Hv as [Hd Hc]. rewrite Hd. cbn [andb].
    destruct (JS.is_digit c') eqn:Hc'; [|reflexivity]. cbn [andb].
    apply Z.eqb_eq in Hcd. apply Z.eqb_neq. intros H.
    apply Hne. apply digit_value_inj. congruence.
  - (* the replaced character is a payload digit *)
    destruct (exists_last (l := p :: post) ltac:(discriminate))
      as (mid & last & Hpost).
    rewrite Hpost in Hv, Hlen |- *.
    assert (H12 : List.length (pre ++ c :: mid) = 12%nat).
    { rewrite length_app in Hlen. cbn [List.length] in Hlen.
      rewrite length_app. cbn [List.length]. lia. }
    assert (H12' : List.length (pre ++ c' :: mid) = 12%nat).
    { rewrite length_app in H12 |- *. exact H12. }
    replace (pre ++ c :: mid ++ [last]) with ((pre ++ c :: mid) ++ [last])
      in Hv by (now rewrite <- app_assoc).
    replace (pre ++ c' :: mid ++ [last]) with ((pre ++ c' :: mid) ++ [last])
      by (now rewrite <- app_assoc).
    rewrite isValidEan13_payload in Hv |- * by assumption.
    apply andb_true_iff in Hv as [Hv Hcd].
    apply andb_true_iff in Hv as [Hd Hl].
    rewrite (forallb_digit_replace _ _ _ c' Hd).
    destruct (JS.is_digit c') eqn:Hc'; [|reflexivity].
    rewrite Hl. cbn [andb].
    apply Z.eqb_eq in Hcd. apply Z.eqb_neq. intros H.
    apply (check_digit_replace pre mid c c');
      [now apply forallb_digit_middle in Hd | exact Hc' | exact Hne |].
    congruence.
Qed.

(** A valid EAN-13 and the same code with its fourth digit changed. *)
Lemma isValidEan13_detects_single_error_witness :
  isValidEan13 (lit "]E04006381333931") = true
  /\ isValidEan13 (lit "]E04007381333931") = false.
Proof.
  split; [reflexivity|].
  apply (isValidEan13_detects_single_error (lit "400") (lit "381333931")
           54%N 55%N).
  - reflexivity.
  - discriminate.
Defined.

(* ================================================================== *)
(** * The separator scan *)
(* ================================================================== *)

(** A list that contains [c] splits at the first [c]. *)
Lemma first_occurrence (c : char) (l : jsstring) :
  In c l -> exists a b, l = a ++ c :: b /\ ~ In c a.
Proof.
  induction l as [|x l IH]; intros Hin; [destruct Hin|].
  destruct (N.eq_dec x c) as [-> | Hx].
  - exists [], l. split; [reflexivity | intros []].
  - destruct Hin as [-> | Hin]; [contradiction|].
    destruct (IH Hin) as (a & b & -> & Hna).
    exists (x :: a), b. split; [reflexivity|].
    intros [H | H]; [contradiction | now apply Hna].
Qed.

(** From position [n] on, either there is no separator, or the string
    splits at the first one. *)
Lemma scan_split (s : jsstring) (n : nat) :
  ~ In JS.plus (skipn n s)
  \/ exists pre post,
       s = pre ++ JS.plus :: post /\ (n <= List.length pre)%nat
       /\ ~ In JS.plus (skipn n pre).
Proof.
  destruct (in_dec N.eq_dec JS.plus (skipn n s)) as [Hin | Hn];
    [right | now left].
  destruct (first_occurrence _ _ Hin) as (a & b & Hsplit & Hna).
  assert (Hlen : (n <= List.length s)%nat).
  { destruct (Nat.le_gt_cases n (List.length s)) as [H | H]; [exact H|].
    rewrite skipn_all2 in Hin by lia. destruct Hin. }
  exists (firstn n s ++ a), b. repeat split.
  - rewrite <- app_assoc, <- Hsplit. symmetry. apply firstn_skipn.
  - rewrite length_app, length_firstn. lia.
  - rewrite skipn_app, length_firstn.
    replace (n - Nat.min n (List.length s))%nat with 0%nat by lia.
    rewrite skipn_all2 by (rewrite length_firstn; lia). exact Hna.
Qed.

(** The value and the rest that the separator scan from position [n]
    yields. *)
Lemma scan_field (s : jsstring) (n : nat) :
  let nextPlus := JS.indexOf s JS.plus (Z.of_nat n) in
  let span := if nextPlus =? -1 then JS.length s else nextPlus + 1 in
  (~ In JS.plus (skipn n s)
   /\ JS.strip_plus (JS.slice s (Z.of_nat n) span) = skipn n s
   /\ JS.slice_from s span = [])
  \/ (exists pre post,
        s = pre ++ JS.plus :: post /\ (n <= List.length pre)%nat
        /\ ~ In JS.plus (skipn n pre)
        /\ JS.strip_plus (JS.slice s (Z.of_nat n) span) = skipn n pre
        /\ JS.slice_from s span = post).
Proof.
  cbv zeta.
  destruct (scan_split s n) as [Hnp | (pre & post & -> & Hlen & Hnp)].
  - left. split; [exact Hnp|].
    rewrite indexOf_none by assumption.
    change (-1 =? -1) with true. cbv iota.
    rewrite slice_nonneg, slice_from_skipn
      by (try apply js_length_nonneg; lia).
    rewrite Nat2Z.id. unfold JS.length. split.
    + rewrite firstn_ge_all by (rewrite length_skipn; lia).
      now apply strip_plus_no_plus.
    + apply skipn_all2. lia.
  - right. exists pre, post.
    split; [reflexivity|]. split; [exact Hlen|]. split; [exact Hnp|].
    rewrite indexOf_found by assumption.
    replace (Z.of_nat (List.length pre) =? -1) with false
      by (symmetry; apply Z.eqb_neq; lia).
    rewrite slice_nonneg, slice_from_skipn by lia.
    replace (Z.to_nat (Z.of_nat (List.length pre) + 1))
      with (S (List.length pre)) by lia.
    replace (Z.to_nat (Z.of_nat (List.length pre) + 1 - Z.of_nat n))
      with (S (List.length pre - n)) by lia.
    rewrite Nat2Z.id. split.
    + rewrite skipn_app.
      replace (n - List.length pre)%nat with 0%nat by lia.
      change (skipn 0 (JS.plus :: post)) with (JS.plus :: post).
      rewrite firstn_app, length_skipn.
      replace (S (List.length pre - n) - (List.length pre - n))%nat
        with 1%nat by lia.
      rewrite firstn_ge_all by (rewrite length_skipn; lia).
      cbn [firstn]. apply strip_plus_app_plus.
    + replace (pre ++ JS.plus :: post) with ((pre ++ [JS.plus]) ++ post)
        by (now rewrite <- app_assoc).
      replace (S (List.length pre)) with (List.length (pre ++ [JS.plus]))
        by (rewrite length_app; simpl; lia).
      apply skipn_app_exact.
Qed.

(** The loop body of [getParsedDataMatrix] on a matched variable-length
    entry, and on no match. *)
Lemma V1_body_variable (s : jsstring) (p : CodePart) :
  V1.find_part s = Some p -> cp_length p = None ->
  V1.loop_body s
  = ({| code := cp_code p;
        value := JS.strip_plus
                   (JS.slice s (JS.length (cp_code p))
                      (V1.known_span s p (JS.length (cp_code p))));
        name := cp_name p; description := cp_description p |},
     JS.slice_from s (V1.known_span s p (JS.length (cp_code p))))
  /\ V1.known_span s p (JS.length (cp_code p))
     = (if JS.indexOf s JS.plus (JS.length (cp_code p)) =? -1
        then JS.length s
        else JS.indexOf s JS.plus (JS.length (cp_code p)) + 1).
Proof.
  intros Hf Hl. unfold V1.loop_body, V1.known_span. now rewrite Hf, Hl.
Qed.

(** X5.  When the rest [s] of the payload begins with the code of a
    variable-length table entry [p], the loop body of
    [getParsedDataMatrix] emits the field of [p] (its code, name and
    description).  When a ["+"] stands after the code, the value is what
    lies between the code and the first such ["+"], and the loop goes on
    after that ["+"]; when there is none, the value is everything after
    the code and the rest is empty. *)
Theorem variable_length_field (s : jsstring) (p : CodePart) :
  In p CODE_PARTS -> (exists r, s = cp_code p ++ r) -> cp_length p = None ->
  let k := List.length (cp_code p) in
  code (fst (V1.loop_body s)) = cp_code p
  /\ name (fst (V1.loop_body s)) = cp_name p
  /\ description (fst (V1.loop_body s)) = cp_description p
  /\ (forall pre post,
        s = pre ++ JS.plus :: post -> (k <= List.length pre)%nat ->
        ~ In JS.plus (skipn k pre) ->
        value (fst (V1.loop_body s)) = skipn k pre
        /\ snd (V1.loop_body s) = post)
  /\ (~ In JS.plus (skipn k s) ->
      value (fst (V1.loop_body s)) = skipn k s
      /\ snd (V1.loop_body s) = []).
Proof.
  intros Hin Hpre Hl k.
  pose proof (V1_find_part_unique s p Hin Hpre) as Hfind.
  destruct (V1_body_variable s p Hfind Hl) as [Hbody Hspan].
  rewrite Hbody, Hspan. cbn [fst snd code name description value].
  unfold JS.length. fold k.
  split; [reflexivity|]. split; [reflexivity|]. split; [reflexivity|].
  pose proof (scan_field s k) as Hscan. cbv zeta in Hscan. split.
  - intros pre post Hs Hlen Hnp.
    destruct Hscan as [(Hno & _) | (pre' & post' & Hs' & Hlen' & Hnp' & Hv & Hr)].
    + exfalso. apply Hno. rewrite Hs, skipn_app.
      apply in_or_app. right.
      replace (k - List.length pre)%nat with 0%nat by lia. now left.
    + assert (Hk : JS.indexOf s JS.plus (Z.of_nat k)
                   = Z.of_nat (List.length pre))
        by (rewrite Hs; now apply indexOf_found).
      assert (Hk' : JS.indexOf s JS.plus (Z.of_nat k)
                    = Z.of_nat (List.length pre'))
        by (rewrite Hs'; now apply indexOf_found).
      assert (Hleneq : List.length pre = List.length pre') by lia.
      assert (Hpp : pre = pre' /\ post = post').
      { rewrite Hs in Hs'.
        assert (E1 : firstn (List.length pre) (pre ++ JS.plus :: post) = pre)
          by apply firstn_app_exact.
        assert (E2 : skipn (List.length pre) (pre ++ JS.plus :: post)
                     = JS.plus :: post) by apply skipn_app_exact.
        rewrite Hs' in E1, E2. rewrite Hleneq in E1, E2.
        rewrite firstn_app_exact in E1. rewrite skipn_app_exact in E2.
        split; [now symmetry | now injection E2]. }
      destruct Hpp as [-> ->]. now split.
  - intros Hnp.
    destruct Hscan as [(_ & Hv & Hr) | (pre' & post' & Hs' & Hlen' & _)].
    + now split.
    + exfalso. apply Hnp. rewrite Hs', skipn_app.
      apply in_or_app. right.
      replace (k - List.length pre')%nat with 0%nat by lia. now left.
Qed.

(** A lot number before a separator, and a serial number that runs to the
    end. *)
Lemma variable_length_field_witness :
  V1.loop_body (lit "10ABC123+21X")
  = ({| code := lit "10"; value := lit "ABC123";
        name := lit "Batch or lot number"; description := lit "LOTE" |},
     lit "21X")
  /\ V1.loop_body (lit "21X")
     = ({| code := lit "21"; value := lit "X";
           name := lit "Serial number"; description := lit "SERIAL" |}, []).
Proof.
  pose (lot := {| cp_name := lit "Batch or lot number";
                  cp_description := lit "LOTE"; cp_code := lit "10";
                  cp_length := None |}).
  pose (serial := {| cp_name := lit "Serial number";
                     cp_description := lit "SERIAL"; cp_code := lit "21";
                     cp_length := None |}).
  split.
  - destruct (variable_length_field (lit "10ABC123+21X") lot)
      as (Hc & Hn & Hd & Hplus & _).
    + right. now left.
    + now exists (lit "ABC123+21X").
    + reflexivity.
    + destruct (Hplus (lit "10ABC123") (lit "21X")) as [Hv Hr].
      * reflexivity.
      * simpl. lia.
      * simpl. intros H.
        repeat (destruct H as [H | H]; [discriminate|]). destruct H.
      * destruct (V1.loop_body (lit "10ABC123+21X")) as [[c v n d] r].
        simpl in *. subst. reflexivity.
  - destruct (variable_length_field (lit "21X") serial)
      as (Hc & Hn & Hd & _ & Hend).
    + do 4 right. now left.
    + now exists (lit "X").
    + reflexivity.
    + destruct Hend as [Hv Hr].
      * simpl. intros [H | []]. discriminate.
      * destruct (V1.loop_body (lit "21X")) as [[c v n d] r].
        simpl in *. subst. reflexivity.
Defined.

(* ================================================================== *)
(** * What the fields keep of the payload *)
(* ================================================================== *)

Lemma strip_plus_cases (s : jsstring) :
  exists sep, (sep = [] \/ sep = [JS.plus]) /\ s = JS.strip_plus s ++ sep.
Proof.
  induction s as [|x s IH].
  - exists []. split; [now left | reflexivity].
  - destruct s as [|y s].
    + simpl. destruct (N.eqb x JS.plus) eqn:E.
      * apply N.eqb_eq in E. subst. exists [JS.plus]. split; [now right | reflexivity].
      * exists []. split; [now left | reflexivity].
    + destruct IH as (sep & Hsep & Heq). exists sep. split; [exact Hsep|].
      change (JS.strip_plus (x :: y :: s)) with (x :: JS.strip_plus (y :: s)).
      cbn [app]. now rewrite <- Heq.
Qed.

(** The code of a fixed-length entry has two characters and its length is
    16 or 8. *)
Lemma table_fixed_entry (p : CodePart) (l : Z) :
  In p CODE_PARTS -> cp_length p = Some l ->
  List.length (cp_code p) = 2%nat /\ (l = 16 \/ l = 8).
Proof.
  intros Hin Hl.
  repeat (destruct Hin as [<- | Hin];
          [simpl in Hl; first [discriminate | injection Hl as <-; auto]|]).
  destruct Hin.
Qed.

Lemma table_code_length (p : CodePart) :
  In p CODE_PARTS ->
  (2 <= List.length (cp_code p) <= 3)%nat /\ cp_name p <> []
  /\ cp_description p <> [].
Proof.
  intros Hin.
  repeat (destruct Hin as [<- | Hin];
          [simpl; repeat split; try lia; discriminate|]).
  destruct Hin.
Qed.

Lemma V1_body_fixed (s : jsstring) (p : CodePart) (l : Z) :
  V1.find_part s = Some p -> cp_length p = Some l ->
  V1.loop_body s
  = ({| code := cp_code p;
        value := JS.strip_plus
                   (firstn (Z.to_nat l - List.length (cp_code p))
                           (skipn (List.length (cp_code p)) s));
        name := cp_name p; description := cp_description p |},
     skipn (Z.to_nat l) s).
Proof.
  intros Hf Hl.
  destruct (V1_find_part_In s p Hf) as [Hin _].
  destruct (table_fixed_entry p l Hin Hl) as [_ Hl'].
  unfold V1.loop_body, V1.known_span. rewrite Hf, Hl.
  rewrite slice_nonneg by (pose proof (js_length_nonneg (cp_code p)); lia).
  rewrite slice_from_skipn by (destruct Hl'; lia).
  unfold JS.length. rewrite Nat2Z.id. do 4 f_equal; lia.
Qed.

Lemma V1_body_unknown (s : jsstring) :
  V1.find_part s = None ->
  V1.loop_body s
  = ({| code := firstn 2 s;
        value := JS.strip_plus (JS.slice s 2 (V1.unknown_span s));
        name := Unknown; description := Unknown |},
     JS.slice_from s (V1.unknown_span s)).
Proof.
  intros Hf. unfold V1.loop_body. rewrite Hf.
  now rewrite slice_0_firstn by lia.
Qed.

Lemma prefix_firstn (s c r : jsstring) :
  s = c ++ r -> firstn (List.length c) s = c /\ skipn (List.length c) s = r.
Proof.
  intros ->. split; [apply firstn_app_exact | apply skipn_app_exact].
Qed.

Lemma firstn_app_le {A} (n : nat) (a b : list A) :
  (n <= List.length a)%nat -> firstn n (a ++ b) = firstn n a.
Proof.
  intros H. rewrite firstn_app.
  replace (n - List.length a)%nat with 0%nat by lia.
  cbn [firstn]. apply app_nil_r.
Qed.

(** One turn of the loop loses nothing: the rest of the payload before the
    turn is the code, the value, possibly one separator, and the new
    rest. *)
Lemma V1_turn_reassembles (s : jsstring) :
  exists sep, (sep = [] \/ sep = [JS.plus])
    /\ s = code (fst (V1.loop_body s)) ++ value (fst (V1.loop_body s))
           ++ sep ++ snd (V1.loop_body s).
Proof.
  destruct (V1.find_part s) as [p|] eqn:Hf.
  - destruct (V1_find_part_In s p Hf) as [Hin Hsw].
    apply startsWith_prefix in Hsw as [r Hs].
    destruct (prefix_firstn s _ r Hs) as [Hcode Hskip].
    destruct (cp_length p) as [l|] eqn:Hl.
    + rewrite (V1_body_fixed s p l Hf Hl). cbn [fst snd code value].
      destruct (table_fixed_entry p l Hin Hl) as [Hk Hl'].
      set (k := List.length (cp_code p)) in *.
      destruct (strip_plus_cases (firstn (Z.to_nat l - k) (skipn k s)))
        as (sep & Hsep & Hraw).
      exists sep. split; [exact Hsep|].
      rewrite (app_assoc (JS.strip_plus _)), <- Hraw.
      replace (skipn (Z.to_nat l) s)
        with (skipn (Z.to_nat l - k) (skipn k s))
        by (rewrite skipn_skipn; f_equal; destruct Hl'; lia).
      rewrite firstn_skipn. rewrite <- Hcode.
      symmetry. apply firstn_skipn.
    + destruct (V1_body_variable s p Hf Hl) as [Hbody Hspan].
      rewrite Hbody, Hspan. cbn [fst snd code value].
      change (JS.length (cp_code p)) with (Z.of_nat (List.length (cp_code p))).
      set (k := List.length (cp_code p)) in *.
      pose proof (scan_field s k) as Hscan. cbv zeta in Hscan.
      destruct Hscan as [(_ & -> & ->)
                        | (pre & post & Hs' & Hlen & _ & -> & ->)].
      * exists []. split; [now left|].
        rewrite !app_nil_r. rewrite <- Hcode.
        symmetry. apply firstn_skipn.
      * exists [JS.plus]. split; [now right|].
        assert (Hc : cp_code p = firstn k pre).
        { rewrite <- Hcode. rewrite Hs'. now apply firstn_app_le. }
        rewrite Hc, app_assoc, firstn_skipn. exact Hs'.
  - rewrite (V1_body_unknown s Hf). cbn [fst snd code value].
    unfold V1.unknown_span.
    pose proof (scan_field s 2) as Hscan. cbv zeta in Hscan.
    change (Z.of_nat 2) with 2 in Hscan.
    destruct Hscan as [(_ & -> & ->)
                      | (pre & post & Hs' & Hlen & _ & -> & ->)].
    + exists []. split; [now left|].
      rewrite !app_nil_r. symmetry. apply firstn_skipn.
    + exists [JS.plus]. split; [now right|].
      rewrite Hs' at 2. rewrite firstn_app_le by exact Hlen.
      rewrite app_assoc, firstn_skipn. exact Hs'.
Qed.

(** X6.  Unless the rest [s] of the payload begins with the code of a
    fixed-length entry, the value of the field that the loop body of
    [getParsedDataMatrix] emits contains no ["+"]: the values of
    variable-length and unknown fields never hold a separator. *)
Theorem scanned_value_has_no_separator (s : jsstring) :
  ~ begins_with_fixed_code s ->
  ~ In JS.plus (value (fst (V1.loop_body s))).
Proof.
  intros Hnf.
  destruct (V1.find_part s) as [p|] eqn:Hf.
  - destruct (V1_find_part_In s p Hf) as [Hin Hsw].
    apply startsWith_prefix in Hsw as [r Hs].
    destruct (cp_length p) as [l|] eqn:Hl.
    + destruct Hnf. exists p, r. repeat split; auto. congruence.
    + destruct (V1_body_variable s p Hf Hl) as [Hbody Hspan].
      rewrite Hbody, Hspan. cbn [fst value].
      change (JS.length (cp_code p)) with (Z.of_nat (List.length (cp_code p))).
      pose proof (scan_field s (List.length (cp_code p))) as Hscan.
      cbv zeta in Hscan.
      destruct Hscan as [(Hno & -> & _) | (pre & post & _ & _ & Hno & -> & _)];
        exact Hno.
  - rewrite (V1_body_unknown s Hf). cbn [fst value]. unfold V1.unknown_span.
    pose proof (scan_field s 2) as Hscan. cbv zeta in Hscan.
    change (Z.of_nat 2) with 2 in Hscan.
    destruct Hscan as [(Hno & -> & _) | (pre & post & _ & _ & Hno & -> & _)];
      exact Hno.
Qed.

(** A lot number between two separators. *)
Lemma scanned_value_has_no_separator_witness :
  ~ In JS.plus (value (fst (V1.loop_body (lit "10A+B+")))).
Proof.
  apply scanned_value_has_no_separator.
  intros (p & r & Hin & Hl & Hs).
  repeat (destruct Hin as [<- | Hin];
          [first [discriminate | now destruct Hl]|]).
  destruct Hin.
Defined.

Lemma fields_fuel_reassemble (fuel : nat) (s : jsstring)
  (fs : list ParsedCodePart) :
  fields_fuel V1.nonempty V1.loop_body fuel s = Some fs -> Reassembles fs s.
Proof.
  revert s fs. induction fuel as [|fuel IH]; intros s fs H; [discriminate|].
  simpl in H. destruct (V1.nonempty s) eqn:En.
  - destruct (V1_turn_reassembles s) as (sep & Hsep & Hs).
    destruct (V1.loop_body s) as [part rest]. cbn [fst snd] in Hs.
    destruct (fields_fuel V1.nonempty V1.loop_body fuel rest) as [fs'|] eqn:E;
      [|discriminate].
    injection H as <-. rewrite Hs. constructor; [exact Hsep | now apply IH].
  - injection H as <-.
    destruct s as [|c s]; [constructor|].
    exfalso. pose proof (proj2 (V1_nonempty_spec (c :: s)) ltac:(discriminate)).
    congruence.
Qed.

(** What [getParsedDataMatrix] returns are the fields of the payload. *)
Lemma V1_returned_fields (code_ : jsstring) (fs : list ParsedCodePart) :
  V1.getParsedDataMatrix code_ = Some (Return fs) ->
  V1.fields (JS.slice_from code_ 3) = Some fs.
Proof.
  intros H.
  destruct (fields_fuel_total _ _ V1_nonempty_spec V1_body_shrinks
              (S (List.length (JS.slice_from code_ 3)))
              (JS.slice_from code_ 3) ltac:(lia)) as [fs' Hf].
  fold (V1.fields (JS.slice_from code_ 3)) in Hf.
  rewrite (V1_getParsedDataMatrix_fields _ _ Hf) in H.
  destruct (Z.of_nat (List.length fs') >=? maxIterations); [discriminate|].
  injection H as <-. exact Hf.
Qed.

(** X7.  Whenever [getParsedDataMatrix] returns, the payload (the input
    after its first three characters) can be put together again from the
    returned fields, in order: each field gives its code, then its value,
    then possibly one ["+"].  Nothing of the payload is lost, reordered or
    invented, except separators. *)
Theorem getParsedDataMatrix_reassembles (code_ : jsstring)
  (fs : list ParsedCodePart) :
  V1.getParsedDataMatrix code_ = Some (Return fs) ->
  Reassembles fs (skipn 3 code_).
Proof.
  intros H. apply V1_returned_fields in H.
  rewrite slice_from_skipn in H by lia.
  now apply fields_fuel_reassemble in H.
Qed.

Lemma getParsedDataMatrix_reassembles_witness :
  Reassembles
    [ {| code := lit "01"; value := lit "12345678901234";
         name := lit "Global Trade Item Number"; description := lit "GTIN" |};
      {| code := lit "10"; value := lit "AB";
         name := lit "Batch or lot number"; description := lit "LOTE" |};
      {| code := lit "99"; value := lit "X";
         name := lit "Unknown"; description := lit "Unknown" |} ]
    (lit "011234567890123410AB+99X").
Proof.
  apply (getParsedDataMatrix_reassembles (lit "]d2011234567890123410AB+99X")).
  reflexivity.
Defined.

(* ================================================================== *)
(** * The result assembler *)
(* ================================================================== *)

(** The table lookup of [createCodeDataMatrix] by code. *)
Lemma lookup_table_entry (p : CodePart) :
  In p CODE_PARTS ->
  find (fun cp => JS.eqb (cp_code cp) (cp_code p)) CODE_PARTS = Some p.
Proof.
  intros Hin.
  repeat (destruct Hin as [<- | Hin]; [reflexivity|]). destruct Hin.
Qed.

Lemma lookup_unknown_code (s : jsstring) :
  V1.find_part s = None ->
  find (fun cp => JS.eqb (cp_code cp) (firstn 2 s)) CODE_PARTS = None.
Proof.
  intros Hf.
  destruct (find _ CODE_PARTS) as [q|] eqn:E; [|reflexivity].
  apply find_some in E as [Hin Heq]. apply js_eqb_eq in Heq.
  assert (Hs : V1.find_part s = Some q).
  { apply V1_find_part_unique; [exact Hin|].
    exists (skipn 2 s). rewrite Heq. symmetry. apply firstn_skipn. }
  congruence.
Qed.

(** The assembler leaves a field of the tokenizer as it is. *)
Lemma assemble_turn (s : jsstring) :
  V1.createCodeDataMatrix [fst (V1.loop_body s)] = [fst (V1.loop_body s)].
Proof.
  unfold V1.createCodeDataMatrix. cbn [List.map].
  destruct (V1.find_part s) as [p|] eqn:Hf.
  - destruct (V1_find_part_In s p Hf) as [Hin _].
    assert (Hc : fst (V1.loop_body s)
                 = {| code := cp_code p;
                      value := value (fst (V1.loop_body s));
                      name := cp_name p; description := cp_description p |}).
    { unfold V1.loop_body. now rewrite Hf. }
    destruct (fst (V1.loop_body s)) as [c v n d]. cbn [code value] in *.
    injection Hc as -> -> ->.
    now rewrite (lookup_table_entry p Hin).
  - rewrite (V1_body_unknown s Hf). cbn [fst code value].
    now rewrite (lookup_unknown_code s Hf).
Qed.

Lemma createCodeDataMatrix_cons (a : ParsedCodePart)
  (l : list ParsedCodePart) :
  V1.createCodeDataMatrix (a :: l)
  = V1.createCodeDataMatrix [a] ++ V1.createCodeDataMatrix l.
Proof. reflexivity. Qed.

Lemma fields_fuel_assembled (fuel : nat) (s : jsstring)
  (fs : list ParsedCodePart) :
  fields_fuel V1.nonempty V1.loop_body fuel s = Some fs ->
  V1.createCodeDataMatrix fs = fs.
Proof.
  revert s fs. induction fuel as [|fuel IH]; intros s fs H; [discriminate|].
  simpl in H. destruct (V1.nonempty s).
  - pose proof (assemble_turn s) as Ht.
    destruct (V1.loop_body s) as [part rest]. cbn [fst] in Ht.
    destruct (fields_fuel V1.nonempty V1.loop_body fuel rest) as [fs'|] eqn:E;
      [|discriminate].
    injection H as <-. apply IH in E.
    rewrite (createCodeDataMatrix_cons part fs'), Ht, E. reflexivity.
  - now injection H as <-.
Qed.

(** X8.  The second pass of the DataMatrix path changes nothing: on the
    fields that [getParsedDataMatrix] returns, [createCodeDataMatrix] is
    the identity.  The name and description that the tokenizer attached
    are those of the table entry with the field's code, and a field that
    the tokenizer marked ["Unknown"] has a code that no table entry
    carries. *)
Theorem createCodeDataMatrix_after_tokenizer (code_ : jsstring)
  (fs : list ParsedCodePart) :
  V1.getParsedDataMatrix code_ = Some (Return fs) ->
  V1.createCodeDataMatrix fs = fs.
Proof.
  intros H. apply V1_returned_fields in H.
  now apply fields_fuel_assembled in H.
Qed.

Lemma createCodeDataMatrix_after_tokenizer_witness :
  exists fs,
    V1.getParsedDataMatrix (lit "]d2011234567890123410AB+99X") = Some (Return fs)
    /\ List.length fs = 3%nat
    /\ V1.createCodeDataMatrix fs = fs.
Proof.
  eexists. split; [reflexivity|]. split; [reflexivity|].
  apply (createCodeDataMatrix_after_tokenizer
           (lit "]d2011234567890123410AB+99X")).
  reflexivity.
Defined.

(* ================================================================== *)
(** * Payloads that cannot reach the iteration cap *)
(* ================================================================== *)

Lemma fields_nil (fuel : nat) :
  fields_fuel V1.nonempty V1.loop_body (S fuel) [] = Some [].
Proof. reflexivity. Qed.

(** X9.  An input of at most three characters, a bare marker for
    instance, has an empty payload: [getParsedDataMatrix] returns the
    empty field sequence on it, without an error. *)
Theorem getParsedDataMatrix_empty_payload (code_ : jsstring) :
  (List.length code_ <= 3)%nat ->
  V1.getParsedDataMatrix code_ = Some (Return []).
Proof.
  intros H.
  assert (Hp : JS.slice_from code_ 3 = []).
  { rewrite slice_from_skipn by lia. apply skipn_all2. exact H. }
  rewrite (V1_getParsedDataMatrix_fields code_ []); [reflexivity|].
  rewrite Hp. reflexivity.
Qed.

Lemma getParsedDataMatrix_empty_payload_witness :
  V1.getParsedDataMatrix (lit "]d2") = Some (Return [])
  /\ V1.getParsedDataMatrix [] = Some (Return []).
Proof.
  split; apply getParsedDataMatrix_empty_payload; simpl; lia.
Defined.

Lemma indexOf_lower (s : jsstring) (c : char) (n : nat) :
  JS.indexOf s c (Z.of_nat n) <> -1 ->
  Z.of_nat n <= JS.indexOf s c (Z.of_nat n).
Proof.
  intros H. unfold JS.indexOf, JS.length in *.
  rewrite Z.max_l in * by lia.
  destruct (Nat.le_gt_cases (List.length s) n) as [Hge | Hlt].
  - rewrite Z.min_r in H by lia. rewrite Nat2Z.id in H.
    rewrite skipn_all in H. now destruct H.
  - rewrite Z.min_l in * by lia.
    destruct (index_from_range c (skipn (Z.to_nat (Z.of_nat n)) s)
                (Z.of_nat n)) as [E | E]; [contradiction | exact E].
Qed.

Lemma scan_span_three (s : jsstring) (n : nat) :
  (2 <= n)%nat ->
  let span := if JS.indexOf s JS.plus (Z.of_nat n) =? -1 then JS.length s
              else JS.indexOf s JS.plus (Z.of_nat n) + 1 in
  span = JS.length s \/ 3 <= span.
Proof.
  intros Hn. cbv zeta.
  destruct (JS.indexOf s JS.plus (Z.of_nat n) =? -1) eqn:E; [now left|].
  apply Z.eqb_neq in E. apply indexOf_lower in E. right. lia.
Qed.

(** Every turn but the last consumes at least three characters. *)
Lemma V1_span_three (s : jsstring) :
  V1.span s = JS.length s \/ 3 <= V1.span s.
Proof.
  unfold V1.span. destruct (V1.find_part s) as [p|] eqn:Hf.
  - destruct (V1_find_part_In s p Hf) as [Hin _].
    unfold V1.known_span. destruct (cp_length p) as [l|] eqn:Hl.
    + destruct (table_fixed_entry p l Hin Hl) as [_ [-> | ->]]; right; lia.
    + destruct (table_code_length p Hin) as [Hk _].
      apply (scan_span_three s (List.length (cp_code p))). lia.
  - apply (scan_span_three s 2). lia.
Qed.

Lemma V1_turn_three (s : jsstring) :
  snd (V1.loop_body s) = []
  \/ (List.length (snd (V1.loop_body s)) + 3 <= List.length s)%nat.
Proof.
  rewrite V1_body_rest.
  destruct (V1_span_three s) as [E | E].
  - left. rewrite E. rewrite slice_from_skipn by apply js_length_nonneg.
    apply skipn_all2. unfold JS.length. lia.
  - rewrite slice_from_skipn by lia.
    destruct (Nat.le_gt_cases (List.length s) (Z.to_nat (V1.span s)))
      as [Hge | Hlt].
    + left. now apply skipn_all2.
    + right. rewrite length_skipn. lia.
Qed.

Lemma fields_fuel_count (fuel : nat) (s : jsstring) (fs : list ParsedCodePart) :
  fields_fuel V1.nonempty V1.loop_body fuel s = Some fs ->
  (3 * List.length fs <= List.length s + 2)%nat.
Proof.
  revert s fs. induction fuel as [|fuel IH]; intros s fs H; [discriminate|].
  simpl in H. destruct (V1.nonempty s) eqn:En.
  - apply V1_nonempty_spec in En.
    pose proof (V1_turn_three s) as Ht.
    destruct (V1.loop_body s) as [part rest]. cbn [snd] in Ht.
    destruct (fields_fuel V1.nonempty V1.loop_body fuel rest) as [fs'|] eqn:E;
      [|discriminate].
    injection H as <-. cbn [List.length].
    destruct Ht as [-> | Ht].
    + destruct fuel; [discriminate|]. rewrite fields_nil in E.
      injection E as <-. destruct s; [contradiction | simpl; lia].
    + apply IH in E. lia.
  - injection H as <-. simpl. lia.
Qed.

(** X10.  Every turn of the loop but the last consumes at least three
    characters, so a payload of [n] characters has at most [(n + 2) / 3]
    fields: on an input whose payload has at most 2997 characters
    [getParsedDataMatrix] returns its fields and never throws the
    iteration-limit error. *)
Theorem getParsedDataMatrix_short_payload (code_ : jsstring) :
  (List.length (skipn 3 code_) <= 2997)%nat ->
  exists fs,
    V1.getParsedDataMatrix code_ = Some (Return fs)
    /\ (3 * List.length fs <= List.length (skipn 3 code_) + 2)%nat.
Proof.
  intros Hlen.
  destruct (fields_fuel_total _ _ V1_nonempty_spec V1_body_shrinks
              (S (List.length (JS.slice_from code_ 3)))
              (JS.slice_from code_ 3) ltac:(lia)) as [fs Hf].
  pose proof (fields_fuel_count _ _ _ Hf) as Hc.
  fold (V1.fields (JS.slice_from code_ 3)) in Hf.
  rewrite slice_from_skipn in Hc by lia. change (Z.to_nat 3) with 3%nat in Hc.
  exists fs. split; [|exact Hc].
  rewrite (V1_getParsedDataMatrix_fields _ _ Hf).
  destruct (Z.of_nat (List.length fs) >=? maxIterations) eqn:E;
    [|reflexivity].
  apply Z.geb_le in E. unfold maxIterations in E. lia.
Qed.

(** A payload of 2997 characters, 999 fields, is returned; the bound is
    the best one: 2998 characters can hold 1000 fields. *)
Lemma getParsedDataMatrix_short_payload_witness :
  (exists fs,
     V1.getParsedDataMatrix (lit "]d2" ++ serial_fields 999) = Some (Return fs)
     /\ (3 * List.length fs
         <= List.length (skipn 3 (lit "]d2" ++ serial_fields 999)) + 2)%nat)
  /\ V1.getParsedDataMatrix (lit "]d2" ++ serial_fields 999 ++ lit "2")
     = Some (Throw limit_message).
Proof.
  split.
  - apply getParsedDataMatrix_short_payload.
    apply Nat.leb_le. vm_compute. reflexivity.
  - vm_compute. reflexivity.
Defined.

(* ================================================================== *)
(** * [getParsedCode] *)
(* ================================================================== *)

Lemma all_digits_app (a b : jsstring) :
  all_digits (a ++ b) <-> all_digits a /\ all_digits b.
Proof. unfold all_digits. apply Forall_app. Qed.

(** What a valid EAN input is made of: the marker and [n] digits. *)
Lemma isValidEan13_digits (x : jsstring) :
  isValidEan13 x = true ->
  exists rest, x = EAN_marker ++ rest /\ List.length rest = 13%nat
               /\ all_digits rest.
Proof.
  intros Hv. destruct (ean_marked x (or_introl Hv)) as [rest ->].
  exists rest. split; [reflexivity|].
  pose proof Hv as Hlen. rewrite isValidEan13_marked in Hlen.
  apply andb_true_iff in Hlen as [Hlen _]. apply Z.eqb_eq in Hlen.
  split; [lia|].
  destruct (split_last 12 rest ltac:(lia)) as (c & Hrest & _).
  assert (H12 : List.length (firstn 12 rest) = 12%nat)
    by (rewrite length_firstn; lia).
  rewrite Hrest, isValidEan13_payload in Hv by exact H12.
  apply andb_true_iff in Hv as [Hv _]. apply andb_true_iff in Hv as [Hd Hc].
  rewrite Hrest. apply all_digits_app. split.
  - now apply forallb_all_digits.
  - now repeat constructor.
Qed.

Lemma isValidEan14_digits (x : jsstring) :
  isValidEan14 x = true ->
  exists rest, x = EAN_marker ++ rest /\ List.length rest = 14%nat
               /\ all_digits rest.
Proof.
  intros Hv. destruct (ean_marked x (or_intror Hv)) as [rest ->].
  exists rest. split; [reflexivity|].
  pose proof Hv as Hlen. rewrite isValidEan14_marked in Hlen.
  apply andb_true_iff in Hlen as [Hlen _]. apply Z.eqb_eq in Hlen.
  split; [lia|].
  destruct (split_last 13 rest ltac:(lia)) as (c & Hrest & _).
  assert (H13 : List.length (firstn 13 rest) = 13%nat)
    by (rewrite length_firstn; lia).
  rewrite Hrest, isValidEan14_payload in Hv by exact H13.
  apply andb_true_iff in Hv as [Hv _]. apply andb_true_iff in Hv as [Hd Hc].
  rewrite Hrest. apply all_digits_app. split.
  - now apply forallb_all_digits.
  - now repeat constructor.
Qed.

(** [code.replace("]E0", "")] on an input that begins with the marker
    removes that marker. *)
Lemma replace_leading_marker (rest : jsstring) :
  JS.replace (EAN_marker ++ rest) (lit "]E0") [] = rest.
Proof. reflexivity. Qed.

Lemma getParsedCode_ean_aux (st : V1.State) (x : jsstring) :
  isValidEan13 x = true \/ isValidEan14 x = true ->
  exists digits,
    x = EAN_marker ++ digits /\ all_digits digits
    /\ (List.length digits = 13%nat \/ List.length digits = 14%nat)
    /\ V1.getParsedCode st x
       = Some (V1.set_isQr st false, Return (ResString digits)).
Proof.
  intros [H | H].
  - destruct (isValidEan13_digits x H) as (rest & Hx & Hlen & Hd).
    exists rest. repeat split; auto.
    unfold V1.getParsedCode.
    rewrite (proj2 (proj1 (detectType_iff x)) H).
    change (JS.eqb (lit "EAN-13") (lit "EAN-13")) with true. cbv iota.
    unfold V1.parseEan13. rewrite Hx. now rewrite replace_leading_marker.
  - destruct (isValidEan14_digits x H) as (rest & Hx & Hlen & Hd).
    exists rest. repeat split; auto.
    unfold V1.getParsedCode.
    destruct (detectType_iff x) as (_ & H14 & _).
    rewrite (proj2 H14 H).
    change (JS.eqb (lit "EAN-14") (lit "EAN-13")) with false.
    change (JS.eqb (lit "EAN-14") (lit "EAN-14")) with true. cbv iota.
    unfold V1.parseEan14. rewrite Hx. now rewrite replace_leading_marker.
Qed.

(** X11.  On a valid EAN-13 or EAN-14 input, [getParsedCode] returns the
    input without its marker, that is the bare 13 or 14 decimal digits,
    and leaves [isQr] false. *)
Theorem getParsedCode_ean (st : V1.State) (x : jsstring) :
  isValidEan13 x = true \/ isValidEan14 x = true ->
  exists digits,
    x = EAN_marker ++ digits /\ all_digits digits
    /\ (List.length digits = 13%nat \/ List.length digits = 14%nat)
    /\ V1.getParsedCode st x
       = Some (V1.set_isQr st false, Return (ResString digits)).
Proof. apply getParsedCode_ean_aux. Qed.

Lemma getParsedCode_ean_witness :
  let st := {| V1.parsedResult := ResNull; V1.buffer := [];
               V1.bufferTimeout := false; V1.isQr := true |} in
  exists digits,
    lit "]E04006381333931" = EAN_marker ++ digits /\ all_digits digits
    /\ (List.length digits = 13%nat \/ List.length digits = 14%nat)
    /\ V1.getParsedCode st (lit "]E04006381333931")
       = Some (V1.set_isQr st false, Return (ResString digits)).
Proof.
  intros st. apply getParsedCode_ean. left. reflexivity.
Defined.

Lemma getParsedCode_qr_aux (st : V1.State) (x : jsstring) :
  (exists rest, x = lit "]Q" ++ rest) ->
  V1.getParsedCode st x
  = Some (V1.set_isQr st true, Return (ResString (skipn 3 x))).
Proof.
  intros H. unfold V1.getParsedCode.
  destruct (detectType_iff x) as (_ & _ & _ & Hq & _).
  rewrite (proj2 Hq H).
  change (JS.eqb (lit "QR") (lit "EAN-13")) with false.
  change (JS.eqb (lit "QR") (lit "EAN-14")) with false.
  change (JS.eqb (lit "QR") (lit "DataMatrix")) with false.
  change (JS.eqb (lit "QR") (lit "QR")) with true. cbv iota.
  now rewrite slice_from_skipn by lia.
Qed.

(** X12.  On an input that begins with ["]Q"], [getParsedCode] returns
    the input without its first three characters (the two of the prefix
    and the one after it, whatever it is) and sets [isQr]. *)
Theorem getParsedCode_qr (st : V1.State) (x : jsstring) :
  (exists rest, x = lit "]Q" ++ rest) ->
  V1.getParsedCode st x
  = Some (V1.set_isQr st true, Return (ResString (skipn 3 x))).
Proof. apply getParsedCode_qr_aux. Qed.

Lemma getParsedCode_qr_witness :
  let st := {| V1.parsedResult := ResNull; V1.buffer := [];
               V1.bufferTimeout := false; V1.isQr := false |} in
  V1.getParsedCode st (lit "]Q1hello")
  = Some (V1.set_isQr st true, Return (ResString (lit "hello")))
  /\ V1.getParsedCode st (lit "]Q")
     = Some (V1.set_isQr st true, Return (ResString [])).
Proof.
  intros st. split.
  - apply (getParsedCode_qr st (lit "]Q1hello")). now exists (lit "1hello").
  - apply (getParsedCode_qr st (lit "]Q")). now exists [].
Defined.

Lemma getParsedCode_datamatrix_aux (st : V1.State) (x : jsstring) :
  begins_with_one_of DATAMATRIX_FNC1 x ->
  exists fs,
    V1.fields (skipn 3 x) = Some fs
    /\ V1.getParsedCode st x
       = Some (V1.set_isQr st false,
               if Z.of_nat (List.length fs) >=? 1000
               then Throw limit_message
               else Return (ResParts fs)).
Proof.
  intros H.
  destruct (fields_fuel_total _ _ V1_nonempty_spec V1_body_shrinks
              (S (List.length (JS.slice_from x 3)))
              (JS.slice_from x 3) ltac:(lia)) as [fs Hf].
  fold (V1.fields (JS.slice_from x 3)) in Hf.
  exists fs. split; [now rewrite slice_from_skipn in Hf by lia|].
  unfold V1.getParsedCode.
  destruct (detectType_iff x) as (_ & _ & Hdm & _).
  rewrite (proj2 Hdm H).
  change (JS.eqb (lit "DataMatrix") (lit "EAN-13")) with false.
  change (JS.eqb (lit "DataMatrix") (lit "EAN-14")) with false.
  change (JS.eqb (lit "DataMatrix") (lit "DataMatrix")) with true. cbv iota.
  rewrite (V1_getParsedDataMatrix_fields _ _ Hf).
  change maxIterations with 1000.
  destruct (Z.of_nat (List.length fs) >=? 1000); [reflexivity|].
  unfold V1.fields in Hf. now rewrite (fields_fuel_assembled _ _ _ Hf).
Qed.

(** X13.  On an input that begins with a DataMatrix marker,
    [getParsedCode] returns the fields of the payload exactly as the
    tokenizer produced them, or passes on the iteration-limit error when
    the payload has at least 1000 fields; [isQr] is left false. *)
Theorem getParsedCode_datamatrix (st : V1.State) (x : jsstring) :
  begins_with_one_of DATAMATRIX_FNC1 x ->
  exists fs,
    V1.fields (skipn 3 x) = Some fs
    /\ V1.getParsedCode st x
       = Some (V1.set_isQr st false,
               if Z.of_nat (List.length fs) >=? 1000
               then Throw limit_message
               else Return (ResParts fs)).
Proof. apply getParsedCode_datamatrix_aux. Qed.

Lemma getParsedCode_datamatrix_witness :
  let st := {| V1.parsedResult := ResNull; V1.buffer := [];
               V1.bufferTimeout := false; V1.isQr := true |} in
  exists fs,
    V1.fields (skipn 3 (lit "]C110AB+21X")) = Some fs
    /\ V1.getParsedCode st (lit "]C110AB+21X")
       = Some (V1.set_isQr st false,
               if Z.of_nat (List.length fs) >=? 1000
               then Throw limit_message
               else Return (ResParts fs)).
Proof.
  intros st. apply getParsedCode_datamatrix.
  exists (lit "]C1"), (lit "10AB+21X"). split; [now left | reflexivity].
Defined.

(** [getParsedCode] case by case. *)
Lemma getParsedCode_cases (st : V1.State) (x : jsstring) :
  exists st' r,
    V1.getParsedCode st x = Some (st', r)
    /\ V1.parsedResult st' = V1.parsedResult st
    /\ V1.buffer st' = V1.buffer st
    /\ V1.bufferTimeout st' = V1.bufferTimeout st
    /\ (V1.isQr st' = true <-> exists rest, x = lit "]Q" ++ rest)
    /\ (detectType x = None -> r = Return (ResString x))
    /\ (forall message,
          r = Throw message ->
          message = limit_message
          /\ begins_with_one_of DATAMATRIX_FNC1 x
          /\ (2998 <= List.length (skipn 3 x))%nat)
    /\ (begins_with_one_of DATAMATRIX_FNC1 x ->
        (exists parts, r = Return (ResParts parts)) \/ r = Throw limit_message)
    /\ (~ begins_with_one_of DATAMATRIX_FNC1 x ->
        exists str, r = Return (ResString str)).
Proof.
  destruct (detectType_iff x) as (H13 & H14 & Hdm & Hq & Hnone).
  assert (Hne : forall t t', detectType x = Some t -> t <> t' ->
                detectType x <> Some t') by (intros; congruence).
  destruct (isValidEan13 x) eqn:E13.
  { pose proof (proj2 H13 eq_refl) as Hd.
    destruct (getParsedCode_ean_aux st x (or_introl E13))
      as (digits & Hx & _ & _ & Hg).
    exists (V1.set_isQr st false), (Return (ResString digits)).
    split; [exact Hg|]. do 3 (split; [reflexivity|]).
    split; [|split; [|split; [|split]]].
    - split; [discriminate|]. intros Hex. apply Hq in Hex.
      now destruct (Hne _ (lit "QR") Hd ltac:(discriminate)).
    - intros Hn. congruence.
    - discriminate.
    - intros Hb. apply Hdm in Hb.
      now destruct (Hne _ (lit "DataMatrix") Hd ltac:(discriminate)).
    - intros _. now exists digits. }
  destruct (isValidEan14 x) eqn:E14.
  { pose proof (proj2 H14 eq_refl) as Hd.
    destruct (getParsedCode_ean_aux st x (or_intror E14))
      as (digits & Hx & _ & _ & Hg).
    exists (V1.set_isQr st false), (Return (ResString digits)).
    split; [exact Hg|]. do 3 (split; [reflexivity|]).
    split; [|split; [|split; [|split]]].
    - split; [discriminate|]. intros Hex. apply Hq in Hex.
      now destruct (Hne _ (lit "QR") Hd ltac:(discriminate)).
    - intros Hn. congruence.
    - discriminate.
    - intros Hb. apply Hdm in Hb.
      now destruct (Hne _ (lit "DataMatrix") Hd ltac:(discriminate)).
    - intros _. now exists digits. }
  destruct (isValidDataMatrix x) eqn:Edm.
  { pose proof (proj1 (isValidDataMatrix_prefix x) Edm) as Hb.
    pose proof (proj2 Hdm Hb) as Hd.
    destruct (getParsedCode_datamatrix_aux st x Hb) as (fs & Hf & Hg).
    eexists _, _. split; [exact Hg|]. do 3 (split; [reflexivity|]).
    split; [|split; [|split; [|split]]].
    - split; [discriminate|]. intros Hex. apply Hq in Hex.
      now destruct (Hne _ (lit "QR") Hd ltac:(discriminate)).
    - intros Hn. congruence.
    - intros message Hm.
      destruct (Z.of_nat (List.length fs) >=? 1000) eqn:E; [|discriminate].
      injection Hm as <-. split; [reflexivity|]. split; [exact Hb|].
      apply Z.geb_le in E. unfold V1.fields in Hf.
      apply fields_fuel_count in Hf. lia.
    - intros _. destruct (Z.of_nat (List.length fs) >=? 1000);
        [now right | left; now exists fs].
    - intros Hnb. now destruct Hnb. }
  assert (Hnb : ~ begins_with_one_of DATAMATRIX_FNC1 x).
  { intros Hb. apply isValidDataMatrix_prefix in Hb. congruence. }
  destruct (JS.startsWith x (lit "]Q")) eqn:Eq.
  { pose proof (proj1 (startsWith_prefix x (lit "]Q")) Eq) as Hex.
    pose proof (proj2 Hq Hex) as Hd.
    exists (V1.set_isQr st true), (Return (ResString (skipn 3 x))).
    split; [now apply getParsedCode_qr_aux|]. do 3 (split; [reflexivity|]).
    split; [|split; [|split; [|split]]].
    - split; [intros _; exact Hex | reflexivity].
    - intros Hn. congruence.
    - discriminate.
    - intros Hb. now destruct Hnb.
    - intros _. now eexists. }
  assert (Hd : detectType x = None).
  { unfold detectType. now rewrite E13, E14, Edm, Eq. }
  exists (V1.set_isQr st false), (Return (ResString x)).
  split; [unfold V1.getParsedCode; now rewrite Hd|].
  do 3 (split; [reflexivity|]).
  split; [|split; [|split; [|split]]].
  - split; [discriminate|]. intros Hex.
    apply startsWith_prefix in Hex. congruence.
  - reflexivity.
  - discriminate.
  - intros Hb. now destruct Hnb.
  - intros _. now eexists.
Qed.

(** X14.  [getParsedCode] completes on every input and touches no cell
    but [isQr], which ends up true exactly when the input begins with
    ["]Q"], whatever it was before.  An input of no known symbology is
    returned unchanged.  The only error is the iteration-limit error, and
    only on DataMatrix input whose payload has at least 2998
    characters. *)
Theorem getParsedCode_completes (st : V1.State) (x : jsstring) :
  exists st' r,
    V1.getParsedCode st x = Some (st', r)
    /\ V1.parsedResult st' = V1.parsedResult st
    /\ V1.buffer st' = V1.buffer st
    /\ V1.bufferTimeout st' = V1.bufferTimeout st
    /\ (V1.isQr st' = true <-> exists rest, x = lit "]Q" ++ rest)
    /\ (detectType x = None -> r = Return (ResString x))
    /\ (forall message,
          r = Throw message ->
          message = limit_message
          /\ begins_with_one_of DATAMATRIX_FNC1 x
          /\ (2998 <= List.length (skipn 3 x))%nat).
Proof.
  destruct (getParsedCode_cases st x)
    as (st' & r & Hg & Hp & Hb & Ht & Hq & Hn & Hthrow & _).
  exists st', r. repeat (split; [assumption|]). exact Hthrow.
Qed.

(* ================================================================== *)
(** * From [handleInput] to the settled promise *)
(* ================================================================== *)

(** Whether an input begins with a DataMatrix marker can be decided. *)
Lemma classic_dm (x : jsstring) :
  begins_with_one_of DATAMATRIX_FNC1 x
  \/ ~ begins_with_one_of DATAMATRIX_FNC1 x.
Proof.
  destruct (isValidDataMatrix x) eqn:E.
  - left. now apply isValidDataMatrix_prefix.
  - right. intros H. apply isValidDataMatrix_prefix in H. congruence.
Qed.

(** X15.  After [handleInput] has accepted an input that is not blank,
    the timer callback parses that input.  When it resolves the promise,
    the value is the one stored in [parsedResult], it is never [null],
    and [isParsedResultArray] is true exactly when the input begins with
    a DataMatrix marker.  When it rejects, the reason is the
    iteration-limit error and [parsedResult] keeps its earlier value.
    Either way [isQr] ends up true exactly when the input begins with
    ["]Q"]. *)
Theorem handleInput_then_timer (st : V1.State) (raw : jsstring) :
  ~ whitespace_only raw ->
  exists st' outcome,
    V1.timer_callback (fst (V1.handleInput st raw)) = Some (st', outcome)
    /\ V1.buffer st' = raw
    /\ (V1.isQr st' = true <-> exists rest, raw = lit "]Q" ++ rest)
    /\ match outcome with
       | V1.Resolve result =>
           V1.parsedResult st' = result /\ result <> ResNull
           /\ (V1.isParsedResultArray st' = true
               <-> begins_with_one_of DATAMATRIX_FNC1 raw)
       | V1.Reject r =>
           r = V1.ReasonError limit_message
           /\ V1.parsedResult st' = V1.parsedResult st
       end.
Proof.
  intros Hnb. rewrite (handleInput_pending st raw Hnb). cbn [fst].
  set (st1 := {| V1.parsedResult := V1.parsedResult st; V1.buffer := raw;
                 V1.bufferTimeout := true; V1.isQr := V1.isQr st |}).
  assert (Htrim : JS.trim raw <> []).
  { intros E. apply trim_empty_iff in E. contradiction. }
  destruct (getParsedCode_cases st1 raw)
    as (st2 & r & Hg & Hp & Hb & _ & Hq & _ & Hthrow & Hdm & Hndm).
  unfold V1.timer_callback, V1.handleParse. cbn [V1.buffer st1].
  destruct (JS.trim raw) as [|c t]; [contradiction|].
  rewrite Hg. destruct r as [result | message].
  - eexists _, _. split; [reflexivity|].
    cbn [V1.buffer V1.isQr V1.parsedResult]. split; [exact Hb|].
    split; [exact Hq|]. split; [reflexivity|]. split.
    + intros ->.
      destruct (classic_dm raw) as [Hy | Hn].
      * destruct (Hdm Hy) as [[parts E] | E]; discriminate.
      * destruct (Hndm Hn) as [str E]. discriminate.
    + unfold V1.isParsedResultArray. cbn [V1.parsedResult]. split.
      * intros Harr. destruct (classic_dm raw) as [Hy | Hn]; [exact Hy|].
        destruct (Hndm Hn) as [str E]. injection E as ->. discriminate.
      * intros Hy. destruct (Hdm Hy) as [[parts E] | E]; [|discriminate].
        now injection E as ->.
  - eexists _, _. split; [reflexivity|].
    split; [exact Hb|]. split; [exact Hq|].
    destruct (Hthrow message eq_refl) as (-> & _). split; [reflexivity|].
    exact Hp.
Qed.

Lemma handleInput_then_timer_witness :
  let st := {| V1.parsedResult := ResNull; V1.buffer := [];
               V1.bufferTimeout := false; V1.isQr := true |} in
  exists st' outcome,
    V1.timer_callback (fst (V1.handleInput st (lit "]d210AB+21X")))
    = Some (st', outcome)
    /\ V1.buffer st' = lit "]d210AB+21X"
    /\ (V1.isQr st' = true <-> exists rest, lit "]d210AB+21X" = lit "]Q" ++ rest)
    /\ match outcome with
       | V1.Resolve result =>
           V1.parsedResult st' = result /\ result <> ResNull
           /\ (V1.isParsedResultArray st' = true
               <-> begins_with_one_of DATAMATRIX_FNC1 (lit "]d210AB+21X"))
       | V1.Reject r =>
           r = V1.ReasonError limit_message
           /\ V1.parsedResult st' = V1.parsedResult st
       end.
Proof.
  intros st. apply handleInput_then_timer.
  intros H. inversion H as [|c l Hc _]. discriminate.
Defined.

(* ================================================================== *)
(** * Where the two tokenizers agree *)
(* ================================================================== *)

Lemma nonempty_agree (s : jsstring) : V0.nonempty s = V1.nonempty s.
Proof. destruct s; reflexivity. Qed.

(** The code and the value that [parseDataMatrix] cuts out of [raw]. *)
Lemma raw_value (s : jsstring) (k : nat) (L : Z) :
  0 <= L ->
  JS.slice_from (JS.slice s 0 L) (Z.of_nat k) = JS.slice s (Z.of_nat k) L.
Proof.
  intros HL. rewrite slice_0_firstn by exact HL.
  rewrite slice_from_skipn, slice_nonneg by lia.
  rewrite Nat2Z.id, skipn_firstn_comm. f_equal. lia.
Qed.

Lemma raw_code (s : jsstring) (k : nat) (L : Z) :
  Z.of_nat k <= L \/ L = JS.length s ->
  JS.slice (JS.slice s 0 L) 0 (Z.of_nat k) = firstn k s.
Proof.
  intros HL. pose proof (js_length_nonneg s).
  rewrite (slice_0_firstn s) by lia.
  rewrite slice_0_firstn by lia. rewrite Nat2Z.id.
  destruct HL as [HL | ->].
  - rewrite firstn_firstn. f_equal. lia.
  - unfold JS.length. rewrite Nat2Z.id. now rewrite firstn_all.
Qed.

Lemma V0_span_scan (s : jsstring) (m : option CodePart) :
  find (fun p => JS.startsWith s (cp_code p)) CODE_PARTS = m ->
  (forall p, m = Some p -> cp_length p = None) ->
  let k := match m with Some p => JS.length (cp_code p) | None => 2 end in
  V0.span s
  = (if JS.indexOf s JS.plus k =? -1 then JS.length s
     else JS.indexOf s JS.plus k + 1).
Proof.
  intros Hf Hv. unfold V0.span. rewrite Hf.
  destruct m as [p|]; [|reflexivity]. now rewrite (Hv p eq_refl).
Qed.

(** Off the fixed-length entries, the two loop bodies are the same
    function. *)
Lemma bodies_agree (s : jsstring) :
  ~ begins_with_fixed_code s -> V0.loop_body s = V1.loop_body s.
Proof.
  intros Hnf.
  destruct (V1.find_part s) as [p|] eqn:Hf.
  - destruct (V1_find_part_In s p Hf) as [Hin Hsw].
    apply startsWith_prefix in Hsw as [r Hs].
    destruct (cp_length p) as [l|] eqn:Hl.
    { destruct Hnf. exists p, r. repeat split; auto. congruence. }
    destruct (V1_body_variable s p Hf Hl) as [Hbody Hspan].
    rewrite Hbody, Hspan.
    pose proof (V0_span_scan s (Some p) Hf) as H0. cbv zeta in H0.
    rewrite <- H0 by (intros q Hq; now injection Hq as <-).
    unfold V0.loop_body. unfold V1.find_part in Hf. rewrite Hf.
    cbn [option_map V0.or_Unknown].
    destruct (table_code_length p Hin) as (Hk & Hn & Hd).
    assert (HL : 0 <= V0.span s).
    { destruct s as [|c s]; [destruct (cp_code p); discriminate|].
      pose proof (V0_span_positive (c :: s) ltac:(discriminate)). lia. }
    assert (Hk' : Z.of_nat (List.length (cp_code p)) <= V0.span s
                  \/ V0.span s = JS.length s).
    { rewrite H0 by (intros q Hq; now injection Hq as <-).
      change (JS.length (cp_code p)) with (Z.of_nat (List.length (cp_code p))).
      destruct (JS.indexOf s JS.plus (Z.of_nat (List.length (cp_code p))) =? -1)
        eqn:E; [now right|].
      apply Z.eqb_neq in E. apply indexOf_lower in E. left. lia. }
    change (JS.length (cp_code p)) with (Z.of_nat (List.length (cp_code p))).
    rewrite raw_code by exact Hk'. rewrite raw_value by exact HL.
    destruct (prefix_firstn s _ r Hs) as [-> _].
    destruct (cp_name p) as [|n0 nm] eqn:En; [contradiction|].
    destruct (cp_description p) as [|d0 ds] eqn:Ed; [contradiction|].
    reflexivity.
  - rewrite (V1_body_unknown s Hf).
    pose proof (V0_span_scan s None Hf) as H0. cbv zeta in H0.
    specialize (H0 ltac:(discriminate)).
    assert (Hu : V1.unknown_span s = V0.span s) by (now rewrite H0).
    rewrite Hu.
    unfold V0.loop_body. unfold V1.find_part in Hf. rewrite Hf.
    cbn [option_map V0.or_Unknown].
    pose proof (js_length_nonneg s).
    assert (Hk' : Z.of_nat 2 <= V0.span s \/ V0.span s = JS.length s).
    { rewrite H0. pose proof (scan_span_three s 2 ltac:(lia)) as H3.
      cbv zeta in H3. change (Z.of_nat 2) with 2 in *.
      destruct H3 as [-> | H3]; [now right | left; lia]. }
    assert (HL : 0 <= V0.span s) by (destruct Hk' as [? | ->]; lia).
    change 2 with (Z.of_nat 2).
    rewrite raw_code by exact Hk'. rewrite raw_value by exact HL.
    reflexivity.
Qed.

Lemma fixed_code_in_list (s : jsstring) :
  begins_with_fixed_code s ->
  In (code (fst (V1.loop_body s))) fixed_length_codes.
Proof.
  intros (p & r & Hin & Hl & Hs).
  assert (Hf : V1.find_part s = Some p)
    by (apply V1_find_part_unique; [exact Hin | now exists r]).
  destruct (cp_length p) as [l|] eqn:El; [|contradiction].
  rewrite (V1_body_fixed s p l Hf El). cbn [fst code].
  unfold fixed_length_codes. apply in_map. apply filter_In.
  split; [exact Hin | now rewrite El].
Qed.

Lemma fields_agree (fuel : nat) (s : jsstring) (fs : list ParsedCodePart) :
  fields_fuel V1.nonempty V1.loop_body fuel s = Some fs ->
  Forall (fun f => ~ In (code f) fixed_length_codes) fs ->
  fields_fuel V0.nonempty V0.loop_body fuel s = Some fs.
Proof.
  revert s fs. induction fuel as [|fuel IH]; intros s fs H Hall;
    [discriminate|].
  cbn [fields_fuel] in H |- *. rewrite nonempty_agree.
  destruct (V1.nonempty s); [|exact H].
  pose proof (fixed_code_in_list s) as Hfix.
  pose proof (bodies_agree s) as Hagree.
  destruct (V1.loop_body s) as [part rest]. cbn [fst] in Hfix.
  destruct (fields_fuel V1.nonempty V1.loop_body fuel rest) as [fs'|] eqn:E;
    [|discriminate].
  injection H as <-. inversion Hall as [|? ? Hpart Hrest]; subst.
  rewrite Hagree by (intros Hb; now apply Hpart, Hfix).
  now rewrite (IH rest fs' E Hrest).
Qed.

(** X16.  [parseDataMatrix] and [getParsedDataMatrix] agree on every input
    whose fields carry no fixed-length code (["01"], ["11"], ["17"]):
    off the fixed-length entries the two loop bodies compute the same
    field and the same rest, so both return the same fields or both
    throw. *)
Theorem tokenizers_agree_without_fixed_length (code_ : jsstring)
  (fs : list ParsedCodePart) :
  V1.fields (skipn 3 code_) = Some fs ->
  Forall (fun f => ~ In (code f) fixed_length_codes) fs ->
  V0.parseDataMatrix code_ = V1.getParsedDataMatrix code_.
Proof.
  intros Hf Hall.
  assert (Hp : JS.slice_from code_ 3 = skipn 3 code_)
    by (now rewrite slice_from_skipn by lia).
  rewrite <- Hp in Hf.
  rewrite (V1_getParsedDataMatrix_fields _ _ Hf).
  apply V0_parseDataMatrix_fields.
  unfold V0.fields, V1.fields in *. now apply fields_agree.
Qed.

Lemma tokenizers_agree_without_fixed_length_witness :
  fixed_length_codes = [lit "01"; lit "11"; lit "17"]
  /\ V0.parseDataMatrix (lit "]d210AB+99X+21S")
     = V1.getParsedDataMatrix (lit "]d210AB+99X+21S").
Proof.
  split; [reflexivity|].
  eapply tokenizers_agree_without_fixed_length.
  - reflexivity.
  - repeat constructor; simpl; intros H;
      repeat (destruct H as [H | H]; [discriminate|]); destruct H.
Defined.

(* ================================================================== *)
(** * An invariant of the composable *)
(* ================================================================== *)

Lemma timer_callback_frame (st st' : V1.State) (outcome : V1.settled) :
  V1.timer_callback st = Some (st', outcome) ->
  V1.buffer st' = V1.buffer st /\ V1.bufferTimeout st' = V1.bufferTimeout st.
Proof.
  unfold V1.timer_callback, V1.handleParse. intros H.
  destruct (JS.trim (V1.buffer st)) as [|c t].
  - injection H as <- _. now split.
  - destruct (getParsedCode_cases st (V1.buffer st))
      as (st2 & r & Hg & _ & Hb & Ht & _).
    rewrite Hg in H. destruct r; injection H as <- _; now split.
Qed.

Lemma reachable_buffer (st : V1.State) :
  V1.reachable st ->
  (V1.bufferTimeout st = true -> ~ whitespace_only (V1.buffer st))
  /\ (V1.bufferTimeout st = false -> st = V1.initial).
Proof.
  induction 1 as [| st raw _ [IH1 IH2] | st st' out _ [IH1 IH2] Harmed Hcb].
  - split; [discriminate | reflexivity].
  - unfold V1.handleInput.
    destruct (JS.trim raw) as [|c t] eqn:E; cbn [fst].
    + now split.
    + split; [|discriminate]. intros _ Hw. cbn [V1.buffer] in Hw.
      apply trim_empty_iff in Hw. congruence.
  - destruct (timer_callback_frame _ _ _ Hcb) as [Hb Ht].
    rewrite Hb, Ht. split; [exact IH1|]. congruence.
Qed.

(** X17.  In every state the composable can reach, an armed timer goes
    with a buffer that is not blank; as long as no timer was armed, the
    state is the initial one (blank inputs change nothing).  So the
    timer callback always finds an input to parse: it completes, and it
    never resolves the promise with [null]. *)
Theorem armed_timer_has_input (st : V1.State) :
  V1.reachable st ->
  (V1.bufferTimeout st = false -> st = V1.initial)
  /\ (V1.bufferTimeout st = true ->
      ~ whitespace_only (V1.buffer st)
      /\ exists st' outcome,
           V1.timer_callback st = Some (st', outcome)
           /\ outcome <> V1.Resolve ResNull).
Proof.
  intros Hr. destruct (reachable_buffer st Hr) as [Harmed Hidle].
  split; [exact Hidle|]. intros Ht. specialize (Harmed Ht).
  split; [exact Harmed|].
  assert (Htrim : JS.trim (V1.buffer st) <> []).
  { intros E. apply trim_empty_iff in E. contradiction. }
  unfold V1.timer_callback, V1.handleParse.
  destruct (JS.trim (V1.buffer st)) as [|c t]; [contradiction|].
  destruct (getParsedCode_cases st (V1.buffer st))
    as (st2 & r & Hg & _ & _ & _ & _ & _ & _ & Hdm & Hndm).
  rewrite Hg. destruct r as [result | message].
  - eexists _, _. split; [reflexivity|]. intros E. injection E as ->.
    destruct (classic_dm (V1.buffer st)) as [Hy | Hn].
    + destruct (Hdm Hy) as [[parts E] | E]; discriminate.
    + destruct (Hndm Hn) as [str E]. discriminate.
  - eexists _, _. split; [reflexivity | discriminate].
Qed.

(** The state after a first input, then a blank one. *)
Lemma armed_timer_has_input_witness :
  let st := fst (V1.handleInput
                   (fst (V1.handleInput V1.initial (lit "]Q1hello")))
                   (lit "  ")) in
  V1.bufferTimeout st = true
  /\ V1.buffer st = lit "]Q1hello"
  /\ exists st' outcome,
       V1.timer_callback st = Some (st', outcome)
       /\ outcome <> V1.Resolve ResNull.
Proof.
  intros st.
  assert (Hr : V1.reachable st) by (do 2 apply V1.reachable_handleInput;
                                    apply V1.reachable_initial).
  destruct (armed_timer_has_input st Hr) as [_ H].
  split; [reflexivity|]. split; [reflexivity|].
  now destruct (H eq_refl) as [_ Hcb].
Defined.

(* ================================================================== *)
(** * A fixed-length field, at any place of the payload *)
(* ================================================================== *)








